(** * bluesky_queueserver.manager.comms: JSON-RPC pipe client and ZMQ client

    A shallow embedding of [comms.py]: the message encoder
    [format_jsonrpc_msg], the asyncio pipe client [PipeJsonRpcSendAsync]
    ([send_msg], [_response_received]), the ZMQ client [ZMQCommSendAsync]
    ([send_message], [_zmq_socket_restart]) and [zmq_single_request].

    Python dictionaries are finite maps from strings ([gmap string pyval]).
    Exceptions are values of [exn] carried by [result].  Instance
    attributes live in records that are threaded through a state-and-
    exception monad.  For the pipe client every attribute write, future
    operation and lock operation is also appended to a trace, so that the
    order of effects inside one uninterrupted run of a coroutine can be
    stated.  Futures and sockets are references into a store, because the
    source keeps and re-reads references to them.

    A coroutine is cut at its suspension points: [send_msg] suspends at
    [async with self._lock_comm] and at [asyncio.wait_for], and each run
    between two suspensions is one function on the state.  What the
    environment does (the pipe, the peer, the uuid generator, the timer)
    is an argument of these functions.

    The file has two parts: the definitions, then their properties. *)

From stdpp Require Import base strings gmap list.
From Stdlib Require Import ZArith QArith.

#[local] Set Warnings "-register-all".
#[local] Open Scope string_scope.

(** ** Python values *)

(** The values that [json.loads] produces and [json.dumps] accepts.  JSON
    numbers are restricted to integers. *)
Inductive pyval : Type :=
  | PNone
  | PBool (b : bool)
  | PInt (z : Z)
  | PStr (s : string)
  | PList (l : list pyval)
  | PDict (d : gmap string pyval).

(** A Python [dict] with string keys. *)
Abbreviation pydict := (gmap string pyval).

(** The subclasses of [Exception] that the module raises or lets through.
    [LibError] stands for an exception raised inside a library call
    (pipe, zmq, json), with its class name and its [str()]. *)
Inductive exn : Type :=
  | CommTimeoutError (msg : string)
  | CommJsonRpcError (message : pyval) (error_code : pyval) (error_type : pyval)
  | RuntimeError (msg : string)
  | AsyncioTimeoutError
  | InvalidStateError
  | KeyError (key : string)
  | TypeError (msg : string)
  | LibError (cls : string) (msg : string).

Inductive result (A : Type) : Type :=
  | Ok (a : A)
  | Raise (e : exn).
Arguments Ok {A} a.
Arguments Raise {A} e.

Definition is_ok {A} (r : result A) : bool :=
  match r with Ok _ => true | Raise _ => false end.

(** [key in d] for a dictionary [d]. *)
Definition dict_contains (d : pydict) (key : string) : bool :=
  match d !! key with Some _ => true | None => false end.

(** [d[key]] for a dictionary [d]. *)
Definition dict_getitem (d : pydict) (key : string) : result pyval :=
  match d !! key with Some v => Ok v | None => Raise (KeyError key) end.

Definition is_str (key : string) (v : pyval) : bool :=
  match v with PStr s => bool_decide (s = key) | _ => false end.

(** [key in v] for an arbitrary value: key membership for a dict, element
    membership for a list, substring test for a string, [TypeError] for the
    values that are not containers. *)
Definition py_contains (v : pyval) (key : string) : result bool :=
  match v with
  | PDict d => Ok (dict_contains d key)
  | PList l => Ok (existsb (is_str key) l)
  | PStr s => Ok (match String.index 0 key s with Some _ => true | None => false end)
  | _ => Raise (TypeError "argument is not iterable")
  end.

(** [v[key]] with a string key: only a dict accepts it. *)
Definition py_getitem (v : pyval) (key : string) : result pyval :=
  match v with
  | PDict d => dict_getitem d key
  | PList _ | PStr _ => Raise (TypeError "indices must be integers")
  | _ => Raise (TypeError "object is not subscriptable")
  end.

(** ** [format_jsonrpc_msg] *)

(** [uuid4] is the value of [str(uuid.uuid4())] drawn by this call. *)
Definition format_jsonrpc_msg (method : string) (params : pyval)
    (notification : bool) (uuid4 : string) : pydict :=
  let msg : pydict := <["jsonrpc" := PStr "2.0"]> (<["method" := PStr method]> ∅) in
  let msg := match params with
             | PNone => msg
             | _ => <["params" := params]> msg
             end in
  let msg := if negb notification then <["id" := PStr uuid4]> msg else msg in
  msg.

(** ** The library functions the module calls

    [py_repr v] is [str(v)] for a value that is not a string (an f-string
    formats a string as itself), [pformat] is [pprint.pformat],
    [json_dumps] is [json.dumps] (it raises on an object it cannot
    serialise), and [zmq_connect address] is what
    [socket.connect(address)] does: it raises (pyzmq reports an address
    that it refuses by a [ZMQError]), or it returns a value, of which
    [_zmq_socket_open] tests the truth value (pyzmq returns [None], and
    from version 20 on an object, which is true). *)
Class PyRuntime : Type := {
  py_repr : pyval → string;
  pformat : pyval → string;
  json_dumps : pydict → result string;
  zmq_connect : string → result bool
}.

(** A runtime for evaluating the definitions on concrete inputs. *)
Definition demo_repr (v : pyval) : string :=
  match v with
  | PNone => "None"
  | PBool true => "True"
  | PBool false => "False"
  | PInt z => if bool_decide (z = 0%Z) then "0" else "<int>"
  | PStr s => "'" ++ s ++ "'"
  | PList _ => "[...]"
  | PDict _ => "{...}"
  end.

Definition demo_connect (address : string) : result unit :=
  if bool_decide (address = "bad://")
  then Raise (LibError "ZMQError" "Protocol not supported")
  else Ok tt.

(** [connect] returns [None] for an address that it accepts. *)
Definition demo_runtime : PyRuntime := {|
  py_repr := demo_repr;
  pformat := demo_repr;
  json_dumps := fun _ => Ok "<json>";
  zmq_connect := fun address =>
    match demo_connect address with Ok _ => Ok false | Raise e => Raise e end
|}.

(** [connect] returns a true value for an address that it accepts. *)
Definition demo_runtime_true : PyRuntime := {|
  py_repr := demo_repr;
  pformat := demo_repr;
  json_dumps := fun _ => Ok "<json>";
  zmq_connect := fun address =>
    match demo_connect address with Ok _ => Ok true | Raise e => Raise e end
|}.

(** ** A state-and-exception monad *)

Definition M (S A : Type) : Type := S → result A * S.

Definition mret {S A} (a : A) : M S A := fun s => (Ok a, s).

Definition mbind {S A B} (m : M S A) (k : A → M S B) : M S B :=
  fun s => match m s with
           | (Ok a, s') => k a s'
           | (Raise e, s') => (Raise e, s')
           end.

Definition mraise {S A} (e : exn) : M S A := fun s => (Raise e, s).

Definition mlift {S A} (r : result A) : M S A := fun s => (r, s).

Definition mget {S} : M S S := fun s => (Ok s, s).

Definition mmodify {S} (f : S → S) : M S unit := fun s => (Ok tt, f s).

(** [try: body finally: fin]: [fin] runs on every exit of [body]; the
    outcome of [body] is kept unless [fin] itself raises. *)
Definition try_finally {S A} (body : M S A) (fin : M S unit) : M S A :=
  fun s => match body s with
           | (r, s') => match fin s' with
                        | (Ok _, s'') => (r, s'')
                        | (Raise e, s'') => (Raise e, s'')
                        end
           end.

(** [try: body except <class> as ex: handler(ex)], where [catches] selects
    the exceptions of the class. *)
Definition try_except {S A} (body : M S A) (catches : exn → bool)
    (handler : exn → M S A) : M S A :=
  fun s => match body s with
           | (Raise e, s') => if catches e then handler e s' else (Raise e, s')
           | ok => ok
           end.

Notation "'let*' x := m 'in' k" := (mbind m (fun x => k))
  (at level 10, x name, m at level 100, k at level 200).
Notation "'let*' ' p := m 'in' k" := (mbind m (fun x => match x with p => k end))
  (at level 10, p pattern, m at level 100, k at level 200).
Notation "m ;; k" := (mbind m (fun _ => k))
  (at level 100, k at level 200, right associativity).

(** Sequencing of pure fallible steps. *)
Definition rbind {A B} (r : result A) (k : A → result B) : result B :=
  match r with Ok a => k a | Raise e => Raise e end.

Notation "'let?' x := r 'in' k" := (rbind r (fun x => k))
  (at level 10, x name, r at level 100, k at level 200).

(** ** [CommJsonRpcError] *)

(** The line feed of the format strings. *)
Definition nl : string := String (Ascii.ascii_of_nat 10) EmptyString.

Section exceptions.
Context {rt : PyRuntime}.

(** [str(v)], as an f-string applies it. *)
Definition py_str (v : pyval) : string :=
  match v with PStr s => s | _ => py_repr v end.

(** The properties [error_code], [error_type] and [message] of a
    [CommJsonRpcError]. *)
Definition error_code (e : exn) : option pyval :=
  match e with CommJsonRpcError _ c _ => Some c | _ => None end.

Definition error_type (e : exn) : option pyval :=
  match e with CommJsonRpcError _ _ t => Some t | _ => None end.

Definition message (e : exn) : option string :=
  match e with CommJsonRpcError m _ _ => Some (py_str m) | _ => None end.

(** [str(ex)]: the single constructor argument for the classes that do
    not override [__str__], the key's [repr] for [KeyError], and
    [CommJsonRpcError.__str__]. *)
Definition exn_str (e : exn) : string :=
  match e with
  | CommTimeoutError msg => msg
  | CommJsonRpcError m c t =>
      py_str m ++ nl ++ "Error code: " ++ py_str c ++ ". Error type: " ++ py_str t
  | RuntimeError msg => msg
  | AsyncioTimeoutError => ""
  | InvalidStateError => "invalid state"
  | KeyError key => py_repr (PStr key)
  | TypeError msg => msg
  | LibError _ msg => msg
  end.
End exceptions.

(** ** [PipeJsonRpcSendAsync] *)

(** An [asyncio.Future] created on the loop. *)
Inductive future : Type :=
  | FutPending
  | FutResult (r : pydict)
  | FutCancelled.

(** The three [logger.error] calls of [_response_received]. *)
Inductive log_record : Type :=
  | LogIncorrectId (got : pyval) (expected : string) (response : pydict)
  | LogMissingId (response : pydict)
  | LogUnsolicited (response : pydict).

Inductive event : Type :=
  | EvLockAcquire
  | EvLockRelease
  | EvConnSend (msg_json : string)
  | EvSetExpectedMsgId (v : option string)
  | EvSetFutComm (v : option nat)
  | EvCreateFuture (f : nat)
  | EvWaitFor (f : nat) (timeout : Q)
  | EvSetResult (f : nat) (response : pydict)
  | EvCancel (f : nat)
  | EvLoggerError (r : log_record).

(** The attributes of an instance that [send_msg] and
    [_response_received] use.  [_fut_comm] is a reference into
    [loop_futures], the futures created on [self._loop]; [_lock_comm] is
    [true] while the [asyncio.Lock] is held.  The receive thread
    ([_thread_running], [_conn_polling_timeout]) is not part of the model:
    it only hands decoded messages to [_response_received] on the loop. *)
Record PipeJsonRpcSendAsync : Type := {
  _fut_comm : option nat;
  _lock_comm : bool;
  _timeout_comm : Q;
  _expected_msg_id : option string;
  loop_futures : list future;
  trace : list event
}.

(** [__init__] *)
Definition PipeJsonRpcSendAsync_init (timeout : Q) : PipeJsonRpcSendAsync :=
  {| _fut_comm := None; _lock_comm := false; _timeout_comm := timeout;
     _expected_msg_id := None; loop_futures := []; trace := [] |}.

Definition emit (e : event) : M PipeJsonRpcSendAsync unit :=
  mmodify (fun s =>
    {| _fut_comm := _fut_comm s; _lock_comm := _lock_comm s;
       _timeout_comm := _timeout_comm s; _expected_msg_id := _expected_msg_id s;
       loop_futures := loop_futures s; trace := trace s ++ [e] |}).

Definition set_fut_comm (v : option nat) : M PipeJsonRpcSendAsync unit :=
  mmodify (fun s =>
    {| _fut_comm := v; _lock_comm := _lock_comm s;
       _timeout_comm := _timeout_comm s; _expected_msg_id := _expected_msg_id s;
       loop_futures := loop_futures s; trace := trace s |});;
  emit (EvSetFutComm v).

Definition set_expected_msg_id (v : option string) : M PipeJsonRpcSendAsync unit :=
  mmodify (fun s =>
    {| _fut_comm := _fut_comm s; _lock_comm := _lock_comm s;
       _timeout_comm := _timeout_comm s; _expected_msg_id := v;
       loop_futures := loop_futures s; trace := trace s |});;
  emit (EvSetExpectedMsgId v).

Definition set_lock_comm (b : bool) : M PipeJsonRpcSendAsync unit :=
  mmodify (fun s =>
    {| _fut_comm := _fut_comm s; _lock_comm := b;
       _timeout_comm := _timeout_comm s; _expected_msg_id := _expected_msg_id s;
       loop_futures := loop_futures s; trace := trace s |});;
  emit (if b then EvLockAcquire else EvLockRelease).

Definition set_loop_futures (l : list future) : M PipeJsonRpcSendAsync unit :=
  mmodify (fun s =>
    {| _fut_comm := _fut_comm s; _lock_comm := _lock_comm s;
       _timeout_comm := _timeout_comm s; _expected_msg_id := _expected_msg_id s;
       loop_futures := l; trace := trace s |}).

(** [self._loop.create_future()] *)
Definition create_future : M PipeJsonRpcSendAsync nat :=
  let* s := mget in
  let f := length (loop_futures s) in
  set_loop_futures (loop_futures s ++ [FutPending]);;
  emit (EvCreateFuture f);;
  mret f.

(** [fut.set_result(response)]: [InvalidStateError] unless the future is
    still pending. *)
Definition future_set_result (f : nat) (response : pydict)
    : M PipeJsonRpcSendAsync unit :=
  let* s := mget in
  match loop_futures s !! f with
  | Some FutPending =>
      set_loop_futures (<[f := FutResult response]> (loop_futures s));;
      emit (EvSetResult f response)
  | _ => mraise InvalidStateError
  end.

(** [fut.cancel()]: only a pending future changes. *)
Definition future_cancel (f : nat) : M PipeJsonRpcSendAsync unit :=
  let* s := mget in
  match loop_futures s !! f with
  | Some FutPending =>
      set_loop_futures (<[f := FutCancelled]> (loop_futures s));;
      emit (EvCancel f)
  | _ => mret tt
  end.

(** [fut.result()] *)
Definition future_result (f : nat) : M PipeJsonRpcSendAsync pydict :=
  let* s := mget in
  match loop_futures s !! f with
  | Some (FutResult r) => mret r
  | Some FutCancelled => mraise (LibError "CancelledError" "")
  | _ => mraise InvalidStateError
  end.

(** [self._conn.send(msg_json)]; [send_err] is the exception the pipe
    raises for this write, if any. *)
Definition conn_send (send_err : option exn) (msg_json : string)
    : M PipeJsonRpcSendAsync unit :=
  match send_err with
  | Some e => mraise e
  | None => emit (EvConnSend msg_json)
  end.

Definition logger_error (r : log_record) : M PipeJsonRpcSendAsync unit :=
  emit (EvLoggerError r).

Section pipe_client.
Context {rt : PyRuntime}.

(** Lines 342-362 of [send_msg]: what the call makes of the response
    found in the future.  Every subscription and [in] test of the
    source appears in the order in which Python evaluates it. *)
Definition handle_response (msg response : pydict) : result pyval :=
  if dict_contains response "result" then
    dict_getitem response "result"
  else if dict_contains response "error" then
    let? error := dict_getitem response "error" in
    let? err_code := py_getitem error "code" in
    let? has_data := py_contains error "data" in
    if has_data : bool then
      let? data := py_getitem error "data" in
      let? err_type := py_getitem data "type" in
      let? error_message := py_getitem error "message" in
      let? data_message := py_getitem data "message" in
      let err_msg := PStr (py_str error_message ++ ": " ++ py_str data_message) in
      Raise (CommJsonRpcError err_msg err_code err_type)
    else
      let err_type := PStr "CommJsonRpcError" in
      let? err_msg := py_getitem error "message" in
      Raise (CommJsonRpcError err_msg err_code err_type)
  else
    let err_msg :=
      "Message " ++ pformat (PDict msg) ++ nl ++
      "resulted in response with unknown format: " ++ pformat (PDict response) in
    Raise (RuntimeError err_msg).

(** The [try] block up to the suspension in [asyncio.wait_for]
    (lines 331-339).  [Some f] is returned when the coroutine suspends
    on the future [f]; [None] when the message was a notification and
    the block ran to [return response] with [response = None]. *)
Definition send_msg_to_await (msg : pydict) (notification : bool)
    (timeout : Q) (send_err : option exn)
    : M PipeJsonRpcSendAsync (option nat) :=
  let* msg_json := mlift (json_dumps msg) in
  conn_send send_err msg_json;;
  if negb notification then
    let* id := mlift (dict_getitem msg "id") in
    set_expected_msg_id (match id with PStr u => Some u | _ => None end);;
    let* f := create_future in
    set_fut_comm (Some f);;
    emit (EvWaitFor f timeout);;
    mret (Some f)
  else
    mret None.

(** [asyncio.wait_for(fut, timeout)] is modelled as CPython 3.7 to 3.11
    run it ([Lib/asyncio/tasks.py]).  The coroutine suspends on a waiter
    that the completion of [fut] and the timer both release; the timer
    does nothing else, and in particular it leaves [fut] pending.  When
    the coroutine is resumed, [wait_for] returns [fut.result()] if [fut]
    is done.  Otherwise it cancels [fut] and suspends once more, until
    the cancellation has taken effect ([_cancel_and_wait]); resumed
    again, it raises [TimeoutError].  Time itself is not modelled: when
    the timer fires, and what the loop handles before and after, is for
    the environment to say.  (With a timeout of zero or less [wait_for]
    sets no timer and cancels [fut] before it suspends at all: nothing
    is then handled before the cancellation.)

    [wait_for_resumed] is [wait_for] from the resumption that ends it:
    the result is there, or the future has been cancelled.  A future
    that is still pending is cancelled first: the two resumptions of a
    call that times out, when the loop runs nothing in between. *)
Definition wait_for_resumed (f : nat) : M PipeJsonRpcSendAsync unit :=
  let* s := mget in
  match loop_futures s !! f with
  | Some (FutResult _) => mret tt
  | _ => future_cancel f;; mraise AsyncioTimeoutError
  end.

(** The [try] block from the resumption on (lines 339-362); [f] is the
    future that was passed to [wait_for], while [response] is read
    through [self._fut_comm] again. *)
Definition send_msg_from_await (msg : pydict) (f : nat)
    : M PipeJsonRpcSendAsync pyval :=
  wait_for_resumed f;;
  let* s := mget in
  let* response :=
    match _fut_comm s with
    | Some f' => future_result f'
    | None => mraise (LibError "AttributeError" "'NoneType' object has no attribute 'result'")
    end in
  mlift (handle_response msg response).

Definition is_asyncio_timeout (e : exn) : bool :=
  match e with AsyncioTimeoutError => true | _ => false end.

(** The [finally] clause (lines 369-371). *)
Definition send_msg_finally : M PipeJsonRpcSendAsync unit :=
  set_fut_comm None;;
  set_expected_msg_id None.

(** The text of the [CommTimeoutError] that [send_msg] raises. *)
Definition timeout_text (msg : pydict) : string :=
  "Timeout while waiting for response to message: " ++ nl ++ pformat (PDict msg).

(** What encloses the [try] block: [except asyncio.TimeoutError],
    [finally], and the release of the lock by [async with].  [body] is
    the part of the block that is still to run. *)
Definition send_msg_unwind (msg : pydict) (body : M PipeJsonRpcSendAsync pyval)
    : M PipeJsonRpcSendAsync pyval :=
  try_finally
    (try_finally
       (try_except body is_asyncio_timeout
          (fun _ => mraise (CommTimeoutError (timeout_text msg))))
       send_msg_finally)
    (set_lock_comm false).

(** Where a call of [send_msg] stands after its first uninterrupted run. *)
Inductive started : Type :=
  | Blocked
  | Awaiting (msg : pydict) (f : nat)
  | Completed (r : result pyval).

(** [send_msg] from the call to the first suspension.  The call waits
    at [async with self._lock_comm] while the lock is held. *)
Definition send_msg_begin (method : string) (params : pyval)
    (notification : bool) (timeout : option Q)
    (uuid4 : string) (send_err : option exn)
    (s : PipeJsonRpcSendAsync) : started * PipeJsonRpcSendAsync :=
  let timeout := match timeout with Some t => t | None => _timeout_comm s end in
  if _lock_comm s then (Blocked, s)
  else
    match set_lock_comm true s with
    | (_, s) =>
      let msg := format_jsonrpc_msg method params notification uuid4 in
      match send_msg_to_await msg notification timeout send_err s with
      | (Ok (Some f), s) => (Awaiting msg f, s)
      | (Ok None, s) =>
          let '(r, s) := send_msg_unwind msg (mret PNone) s in (Completed r, s)
      | (Raise e, s) =>
          let '(r, s) := send_msg_unwind msg (mraise e) s in (Completed r, s)
      end
    end.

(** [send_msg] from the resumption of [wait_for] to the end. *)
Definition send_msg_resume (msg : pydict) (f : nat)
    : M PipeJsonRpcSendAsync pyval :=
  send_msg_unwind msg (send_msg_from_await msg f).

(** [_response_received] *)
Definition _response_received (response : pydict) : M PipeJsonRpcSendAsync unit :=
  let* s := mget in
  match _expected_msg_id s with
  | Some expected =>
      if dict_contains response "id" then
        let* id := mlift (dict_getitem response "id") in
        if negb (is_str expected id) then
          logger_error (LogIncorrectId id expected response)
        else
          match _fut_comm s with
          | Some f => future_set_result f response
          | None => mraise (LibError "AttributeError"
                              "'NoneType' object has no attribute 'set_result'")
          end
      else
        logger_error (LogMissingId response)
  | None =>
      logger_error (LogUnsolicited response)
  end.

(** The task that [_conn_received] creates for a message: it runs
    [_response_received] on the loop, and an exception it raises stays
    in the task. *)
Definition deliver (response : pydict) (s : PipeJsonRpcSendAsync)
    : PipeJsonRpcSendAsync :=
  snd (_response_received response s).

(** The call is resumed after the timer of [wait_for] has fired:
    [wait_for] cancels the future if it is still pending and suspends
    until the cancellation has taken effect; it leaves a future that is
    done as it is. *)
Definition cancel_and_wait (f : nat) (s : PipeJsonRpcSendAsync)
    : PipeJsonRpcSendAsync :=
  snd (future_cancel f s).

(** One whole call of [send_msg] with no other caller.  The messages
    that the loop handles while the call is suspended come in three
    lists: [incoming] before the timer of [wait_for] fires; [racing]
    after the timer has fired and before the call is resumed, while the
    future is as the timer found it; [late] after [wait_for] has
    cancelled the future and before the call is resumed for the last
    time.  The firing of the timer changes nothing that the instance
    holds, so it only separates [incoming] from [racing].  [None]: the
    lock was held, the call does not start. *)
Definition send_msg (method : string) (params : pyval)
    (notification : bool) (timeout : option Q)
    (uuid4 : string) (send_err : option exn)
    (incoming racing late : list pydict)
    (s : PipeJsonRpcSendAsync) : option (result pyval * PipeJsonRpcSendAsync) :=
  match send_msg_begin method params notification timeout uuid4 send_err s with
  | (Blocked, _) => None
  | (Completed r, s) => Some (r, s)
  | (Awaiting msg f, s) =>
      let s := foldl (fun s r => deliver r s) s incoming in
      let s := foldl (fun s r => deliver r s) s racing in
      let s := cancel_and_wait f s in
      let s := foldl (fun s r => deliver r s) s late in
      Some (send_msg_resume msg f s)
  end.
End pipe_client.

(** The message [response] answers the request that is expected: it has
    an id, and [response["id"] != self._expected_msg_id] is false. *)
Definition id_matches (s : PipeJsonRpcSendAsync) (response : pydict) : Prop :=
  ∃ expected, _expected_msg_id s = Some expected
              ∧ response !! "id" = Some (PStr expected).

(** The same test against a given id, as a function. *)
Definition answers (expected : string) (response : pydict) : bool :=
  match response !! "id" with
  | Some id => is_str expected id
  | None => false
  end.

(** ** Concurrent callers of one [PipeJsonRpcSendAsync]

    The event loop runs one coroutine at a time, from one suspension to
    the next.  A schedule lists what the loop does in turn: a task calls
    [send_msg] ([ACall]); a task waiting at the lock or newly started
    enters ([AEnter]); a received message is handed to
    [_response_received] ([ADeliver]); a waiting task whose timer has
    fired is resumed and [wait_for] cancels its future if it is still
    pending ([ATimeout]); a waiting task whose future is done, with a
    result or cancelled, is resumed and runs to its end ([AResume]).
    The firing of a timer is no step of its own: it changes nothing
    that the instance holds, and the messages handled between the
    firing and the resumption are deliveries that precede [ATimeout].
    Any task may enter when the lock is free: every order in which
    [asyncio.Lock] can admit its waiters is a schedule. *)

Record call_args : Type := {
  call_method : string;
  call_params : pyval;
  call_notification : bool;
  call_timeout : option Q
}.

Inductive task : Type :=
  | TCall (a : call_args)
  | TAwaiting (msg : pydict) (f : nat)
  | TFinished (r : result pyval).

Record system : Type := {
  client : PipeJsonRpcSendAsync;
  tasks : list task
}.

Inductive action : Type :=
  | ACall (a : call_args)
  | AEnter (i : nat) (uuid4 : string) (send_err : option exn)
  | ADeliver (response : pydict)
  | ATimeout (i : nat)
  | AResume (i : nat).

Definition is_awaiting (t : task) : bool :=
  match t with TAwaiting _ _ => true | _ => false end.

Definition awaiting (t : task) : Prop := is_awaiting t = true.

(** The calls that are waiting for a response. *)
Definition pending_requests (sy : system) : list task :=
  filter awaiting (tasks sy).

Section scheduler.
Context {rt : PyRuntime}.

Definition exec (a : action) (sy : system) : system :=
  match a with
  | ACall args =>
      {| client := client sy; tasks := tasks sy ++ [TCall args] |}
  | AEnter i uuid4 send_err =>
      match tasks sy !! i with
      | Some (TCall args) =>
          match send_msg_begin (call_method args) (call_params args)
                  (call_notification args) (call_timeout args)
                  uuid4 send_err (client sy) with
          | (Blocked, _) => sy
          | (Awaiting msg f, c) =>
              {| client := c; tasks := <[i := TAwaiting msg f]> (tasks sy) |}
          | (Completed r, c) =>
              {| client := c; tasks := <[i := TFinished r]> (tasks sy) |}
          end
      | _ => sy
      end
  | ADeliver response =>
      {| client := deliver response (client sy); tasks := tasks sy |}
  | ATimeout i =>
      match tasks sy !! i with
      | Some (TAwaiting _ f) =>
          {| client := cancel_and_wait f (client sy); tasks := tasks sy |}
      | _ => sy
      end
  | AResume i =>
      match tasks sy !! i with
      | Some (TAwaiting msg f) =>
          match loop_futures (client sy) !! f with
          | Some FutPending => sy
          | _ =>
              match send_msg_resume msg f (client sy) with
              | (r, c) => {| client := c; tasks := <[i := TFinished r]> (tasks sy) |}
              end
          end
      | _ => sy
      end
  end.

Definition run (schedule : list action) (sy : system) : system :=
  foldl (fun sy a => exec a sy) sy schedule.

Definition initial_system (timeout : Q) : system :=
  {| client := PipeJsonRpcSendAsync_init timeout; tasks := [] |}.
End scheduler.

(** What a trace shows of the lock and of the two attributes:
    (lock held, [_expected_msg_id] set, [_fut_comm] set). *)
Definition lock_view : Type := bool * bool * bool.

(** One event against the discipline of the lock: the lock is acquired
    only when free and released only when held, an attribute is set only
    while the lock is held, and both are cleared when the lock is
    released.  [None]: the event breaks the discipline. *)
Definition lock_event (v : option lock_view) (e : event) : option lock_view :=
  match v with
  | None => None
  | Some (locked, expected, fut) =>
      match e with
      | EvLockAcquire => if locked then None else Some (true, expected, fut)
      | EvLockRelease =>
          if locked && negb expected && negb fut
          then Some (false, expected, fut) else None
      | EvSetExpectedMsgId (Some _) => if locked then Some (locked, true, fut) else None
      | EvSetExpectedMsgId None => Some (locked, false, fut)
      | EvSetFutComm (Some _) => if locked then Some (locked, expected, true) else None
      | EvSetFutComm None => Some (locked, expected, false)
      | _ => v
      end
  end.

Definition lock_discipline (tr : list event) : option lock_view :=
  foldl lock_event (Some (false, false, false)) tr.

Definition is_set {A} (o : option A) : bool :=
  match o with Some _ => true | None => false end.

(** What holds between two steps of the loop: the trace keeps the
    discipline of the lock and agrees with the attributes; the number of
    waiting calls is one while the lock is held and zero otherwise; the
    attributes are [None] while the lock is free; and a waiting call holds
    the lock, waits on the future in [_fut_comm], and its id is
    [_expected_msg_id]. *)
Definition pipe_invariant (sy : system) : Prop :=
  let c := client sy in
  lock_discipline (trace c)
  = Some (_lock_comm c, is_set (_expected_msg_id c), is_set (_fut_comm c))
  ∧ length (pending_requests sy) = (if _lock_comm c then 1 else 0)%nat
  ∧ (_lock_comm c = false → _expected_msg_id c = None ∧ _fut_comm c = None)
  ∧ (∀ i msg f, tasks sy !! i = Some (TAwaiting msg f) →
       _lock_comm c = true ∧ _fut_comm c = Some f
       ∧ (f < length (loop_futures c))%nat
       ∧ ∃ u, msg !! "id" = Some (PStr u) ∧ _expected_msg_id c = Some u).

(** ** [ZMQCommSendAsync] *)

(** A socket of [self._ctx]. *)
Record zmq_socket : Type := {
  connected_to : option string;
  RCVTIMEO : Z;
  SNDTIMEO : Z;
  LINGER : option Z;
  closed : bool;
  sent : list pyval
}.

(** The attributes of an instance; [_zmq_socket] is a reference into
    [ctx_sockets], the sockets that [self._ctx] has created.  Logging is
    left out. *)
Record ZMQCommSendAsync : Type := {
  _timeout_receive : Z;
  _timeout_send : Z;
  _raise_timeout_exceptions : bool;
  _zmq_socket : option nat;
  _zmq_server_address : string;
  _lock_zmq : bool;
  ctx_sockets : list zmq_socket
}.

(** What the peer and the transport do during one exchange: the exception
    that [send_json] raises, if any, and what [recv_json] returns or
    raises. *)
Record exchange : Type := {
  send_json_raises : option exn;
  recv_json_gives : result pyval
}.

(** Truth value of a Python value, for [params or {}]. *)
Definition py_truthy (v : pyval) : bool :=
  match v with
  | PNone => false
  | PBool b => b
  | PInt z => negb (Z.eqb z 0)
  | PStr s => negb (bool_decide (s = ""))
  | PList l => negb (Nat.eqb (length l) 0)
  | PDict d => negb (Nat.eqb (size d) 0)
  end.

Definition set_ctx_sockets (l : list zmq_socket) : M ZMQCommSendAsync unit :=
  mmodify (fun s =>
    {| _timeout_receive := _timeout_receive s; _timeout_send := _timeout_send s;
       _raise_timeout_exceptions := _raise_timeout_exceptions s;
       _zmq_socket := _zmq_socket s;
       _zmq_server_address := _zmq_server_address s;
       _lock_zmq := _lock_zmq s; ctx_sockets := l |}).

Definition set_zmq_socket (v : option nat) : M ZMQCommSendAsync unit :=
  mmodify (fun s =>
    {| _timeout_receive := _timeout_receive s; _timeout_send := _timeout_send s;
       _raise_timeout_exceptions := _raise_timeout_exceptions s;
       _zmq_socket := v;
       _zmq_server_address := _zmq_server_address s;
       _lock_zmq := _lock_zmq s; ctx_sockets := ctx_sockets s |}).

Definition set_lock_zmq (b : bool) : M ZMQCommSendAsync unit :=
  mmodify (fun s =>
    {| _timeout_receive := _timeout_receive s; _timeout_send := _timeout_send s;
       _raise_timeout_exceptions := _raise_timeout_exceptions s;
       _zmq_socket := _zmq_socket s;
       _zmq_server_address := _zmq_server_address s;
       _lock_zmq := b; ctx_sockets := ctx_sockets s |}).

(** The socket that [self._zmq_socket] refers to; [AttributeError] when
    the attribute is [None]. *)
Definition the_socket : M ZMQCommSendAsync (nat * zmq_socket) :=
  let* s := mget in
  match _zmq_socket s with
  | Some r =>
      match ctx_sockets s !! r with
      | Some sock => mret (r, sock)
      | None => mraise (LibError "ReferenceError" "no such socket")
      end
  | None => mraise (LibError "AttributeError" "'NoneType' object has no attribute")
  end.

Definition update_socket (r : nat) (f : zmq_socket → zmq_socket)
    : M ZMQCommSendAsync unit :=
  let* s := mget in
  set_ctx_sockets (alter f r (ctx_sockets s)).

(** [self._zmq_socket.close()] *)
Definition socket_close : M ZMQCommSendAsync unit :=
  let* '(r, _) := the_socket in
  update_socket r (fun sock =>
    {| connected_to := connected_to sock; RCVTIMEO := RCVTIMEO sock;
       SNDTIMEO := SNDTIMEO sock; LINGER := LINGER sock;
       closed := true; sent := sent sock |}).

Section zmq_client.
Context {rt : PyRuntime}.

(** [_zmq_socket_open]: the new socket is in [_zmq_socket] before
    [connect] is called; an exception of [connect] leaves the function,
    and a true value that [connect] returns is taken for a failure. *)
Definition _zmq_socket_open : M ZMQCommSendAsync unit :=
  let* s := mget in
  let r := length (ctx_sockets s) in
  set_ctx_sockets (ctx_sockets s ++
    [{| connected_to := None; RCVTIMEO := _timeout_receive s;
        SNDTIMEO := _timeout_send s; LINGER := Some 100%Z;
        closed := false; sent := [] |}]);;
  set_zmq_socket (Some r);;
  let* returned := mlift (zmq_connect (_zmq_server_address s)) in
  update_socket r (fun sock =>
    {| connected_to := Some (_zmq_server_address s); RCVTIMEO := RCVTIMEO sock;
       SNDTIMEO := SNDTIMEO sock; LINGER := LINGER sock;
       closed := closed sock; sent := sent sock |});;
  if returned : bool then
    mraise (RuntimeError
      ("Failed to connect to the server '" ++ _zmq_server_address s ++ "'"))
  else
    mret tt.

(** [_zmq_socket_restart] *)
Definition _zmq_socket_restart : M ZMQCommSendAsync unit :=
  socket_close;;
  _zmq_socket_open.

(** [__init__]; [zmq_server_address] is [None] or a string. *)
Definition ZMQCommSendAsync_init (zmq_server_address : option string)
    (timeout_recv timeout_send : Z) (raise_timeout_exceptions : bool)
    : result unit * ZMQCommSendAsync :=
  let zmq_server_address :=
    match zmq_server_address with
    | Some a => if bool_decide (a = "") then "tcp://localhost:5555" else a
    | None => "tcp://localhost:5555"
    end in
  (_zmq_socket_open;; set_lock_zmq false)
    {| _timeout_receive := timeout_recv; _timeout_send := timeout_send;
       _raise_timeout_exceptions := raise_timeout_exceptions;
       _zmq_socket := None;
       _zmq_server_address := zmq_server_address;
       _lock_zmq := false; ctx_sockets := [] |}.

(** [_zmq_send]: a closed socket refuses the operation. *)
Definition _zmq_send (net : exchange) (msg : pyval) : M ZMQCommSendAsync unit :=
  let* '(r, sock) := the_socket in
  if closed sock then mraise (LibError "ZMQError" "Socket operation on non-socket")
  else
    match send_json_raises net with
    | Some e => mraise e
    | None =>
        update_socket r (fun sock =>
          {| connected_to := connected_to sock; RCVTIMEO := RCVTIMEO sock;
             SNDTIMEO := SNDTIMEO sock; LINGER := LINGER sock;
             closed := closed sock; sent := sent sock ++ [msg] |})
    end.

(** [_zmq_receive]: the exception is logged and raised again. *)
Definition _zmq_receive (net : exchange) : M ZMQCommSendAsync pyval :=
  let* '(_, sock) := the_socket in
  if closed sock then mraise (LibError "ZMQError" "Socket operation on non-socket")
  else mlift (recv_json_gives net).

(** [_zmq_communicate] *)
Definition _zmq_communicate (net : exchange) (msg_out : pyval)
    : M ZMQCommSendAsync pyval :=
  _zmq_send net msg_out;;
  let* msg_in := _zmq_receive net in
  mret msg_in.

(** [_create_msg] *)
Definition _create_msg (method : string) (params : pyval) : pyval :=
  PDict (<["params" := params]> (<["method" := PStr method]> ∅)).

(** The value returned for an absorbed communication error. *)
Definition failure_value (errmsg : string) : pyval :=
  PDict (<["msg" := PStr errmsg]> (<["success" := PBool false]> ∅)).

(** [send_message]; the lock [_lock_zmq] is held from [async with] to
    the end of the block. *)
Definition send_message (method : string) (params : pyval)
    (raise_exceptions : bool) (net : exchange) : M ZMQCommSendAsync pyval :=
  let params := if py_truthy params then params else PDict ∅ in
  set_lock_zmq true;;
  try_finally
    (let* msg_in :=
       try_except
         (let msg_out := _create_msg method params in
          let* msg_in := _zmq_communicate net msg_out in
          mret msg_in)
         (fun _ => true)
         (fun ex =>
            _zmq_socket_restart;;
            let errmsg := "ZMQ communication error: " ++ exn_str ex in
            let* s := mget in
            if _raise_timeout_exceptions s then
              mraise (CommTimeoutError errmsg)
            else
              mret (failure_value errmsg)) in
     mret msg_in)
    (set_lock_zmq false).

(** The coroutine [send_request] of [zmq_single_request]: the value
    assigned to [msg_received], or the exception that leaves
    [asyncio.run].  The instance is created with the defaults of
    [__init__] for every keyword but the address. *)
Definition send_request (method : string) (params : pyval)
    (zmq_server_address : option string) (net : exchange)
    : result pyval * ZMQCommSendAsync :=
  match ZMQCommSendAsync_init zmq_server_address 2000 500 false with
  | (Ok _, zmq_to_manager) =>
      (let* msg_received := send_message method params false net in
       socket_close;;
       mret msg_received) zmq_to_manager
  | (Raise e, zmq_to_manager) => (Raise e, zmq_to_manager)
  end.

(** [zmq_single_request]: the pair [(msg, msg_err)].  [except Exception]
    catches every exception of [exn]. *)
Definition zmq_single_request (method : string) (params : pyval)
    (zmq_server_address : option string) (net : exchange)
    : result (pyval * string) :=
  match fst (send_request method params zmq_server_address net) with
  | Ok msg_received => Ok (msg_received, "")
  | Raise ex => Ok (PNone, exn_str ex)
  end.
End zmq_client.

(** The exception that ends the exchange, if one does. *)
Definition exchange_error (net : exchange) : option exn :=
  match send_json_raises net with
  | Some e => Some e
  | None => match recv_json_gives net with Raise e => Some e | Ok _ => None end
  end.

(** The socket that [_zmq_socket_open] creates for an instance. *)
Definition fresh_socket (z : ZMQCommSendAsync) : zmq_socket :=
  {| connected_to := Some (_zmq_server_address z);
     RCVTIMEO := _timeout_receive z; SNDTIMEO := _timeout_send z;
     LINGER := Some 100%Z; closed := false; sent := [] |}.

(** An instance between two calls, as [__init__] leaves it and
    [send_message] keeps it: the address is one for which [connect]
    returns a false value, the lock is free and [_zmq_socket] is an open
    socket. *)
Definition zmq_ready {rt : PyRuntime} (z : ZMQCommSendAsync) : Prop :=
  zmq_connect (_zmq_server_address z) = Ok false
  ∧ _lock_zmq z = false
  ∧ ∃ r sock, _zmq_socket z = Some r ∧ ctx_sockets z !! r = Some sock
              ∧ closed sock = false.

(** The constructor arguments of an instance are kept. *)
Definition same_config (z z' : ZMQCommSendAsync) : Prop :=
  _zmq_server_address z' = _zmq_server_address z
  ∧ _raise_timeout_exceptions z' = _raise_timeout_exceptions z
  ∧ _timeout_receive z' = _timeout_receive z
  ∧ _timeout_send z' = _timeout_send z.

(** ** The receive threads

    [PipeJsonRpcReceive] and [PipeJsonRpcSendAsync] start and stop their
    receive thread in the same way: [start] calls [_start_conn_thread],
    which starts a thread unless [_thread_running] is set, and [stop]
    clears the flag; the loop of a thread tests the flag at the end of
    each pass and leaves when it is clear.  [threads] lists the threads
    started so far, [true] for a thread whose loop has not ended. *)
Record receiver : Type := {
  _thread_running : bool;
  threads : list bool
}.

(** [__init__]: no thread yet. *)
Definition receiver_init : receiver :=
  {| _thread_running := false; threads := [] |}.

(** [_start_conn_thread] *)
Definition _start_conn_thread (s : receiver) : receiver :=
  if negb (_thread_running s) then
    {| _thread_running := true; threads := threads s ++ [true] |}
  else s.

(** [start] *)
Definition start (s : receiver) : receiver := _start_conn_thread s.

(** [stop] (also what [__del__] calls) *)
Definition stop (s : receiver) : receiver :=
  {| _thread_running := false; threads := threads s |}.

(** The last statement of the loop in thread [i]:
    [if not self._thread_running: break]. *)
Definition thread_check (i : nat) (s : receiver) : receiver :=
  if negb (_thread_running s) then
    {| _thread_running := _thread_running s; threads := <[i := false]> (threads s) |}
  else s.

(** The [break] of the [except] clause in thread [i]. *)
Definition thread_break (i : nat) (s : receiver) : receiver :=
  {| _thread_running := _thread_running s; threads := <[i := false]> (threads s) |}.

Inductive receiver_action : Type :=
  | RStart
  | RStop
  | RCheck (i : nat)
  | RBreak (i : nat).

Definition receiver_exec (a : receiver_action) (s : receiver) : receiver :=
  match a with
  | RStart => start s
  | RStop => stop s
  | RCheck i => thread_check i s
  | RBreak i => thread_break i s
  end.

Definition receiver_run (actions : list receiver_action) (s : receiver) : receiver :=
  foldl (fun s a => receiver_exec a s) s actions.

Definition is_stop (a : receiver_action) : bool :=
  match a with RStop => true | _ => false end.

Definition is_check (a : receiver_action) : bool :=
  match a with RCheck _ => true | _ => false end.

(** One more thread can be started at once when the flag is clear. *)
Definition slack (s : receiver) : nat := if _thread_running s then 0%nat else 1%nat.

(** The number of threads whose loop has not ended. *)
Definition live_threads (s : receiver) : nat :=
  length (filter (fun alive => alive = true) (threads s)).

(** One pass of a receive loop, as the thread finds the world: what
    [poll] and [recv] give ([None] when [poll] returns false), the
    exception that [self._conn.send] raises for a response, if any, and
    the value of [_thread_running] read by the test that ends the pass. *)
Record pass : Type := {
  polled : option (result string);
  response_send_raises : option exn;
  running_at_check : bool
}.

(** How a receive loop stands after the passes it was given. *)
Inductive loop_end : Type :=
  | LoopRunning
  | LoopStopped
  | LoopFailed (e : exn).

(** [PipeJsonRpcReceive._conn_received]; [handle msg] is
    [JSONRPCResponseManager.handle(msg, self._dispatcher)]: the
    encoding of the response, or [None] when the manager gives none;
    [written] are the responses written to the pipe so far. *)
Definition _conn_received (handle : string → result (option string))
    (send_raises : option exn) (msg : string) (written : list string)
    : result (list string) :=
  let? response := handle msg in
  match response with
  | Some response_json =>
      match send_raises with
      | Some e => Raise e
      | None => Ok (written ++ [response_json])%list
      end
  | None => Ok written
  end.

(** [PipeJsonRpcReceive._receive_conn_thread] over the passes [env]. *)
Fixpoint _receive_conn_thread (handle : string → result (option string))
    (env : list pass) (written : list string) : loop_end * list string :=
  match env with
  | [] => (LoopRunning, written)
  | p :: env =>
      let body :=
        match polled p with
        | Some received =>
            let? msg := received in
            _conn_received handle (response_send_raises p) msg written
        | None => Ok written
        end in
      match body with
      | Raise e => (LoopFailed e, written)
      | Ok written =>
          if negb (running_at_check p) then (LoopStopped, written)
          else _receive_conn_thread handle env written
      end
  end.

(** [PipeJsonRpcSendAsync._pipe_receive] over the passes [env];
    [json_loads] is [json.loads], and [handed] are the messages passed
    to [self._loop.call_soon_threadsafe(self._conn_received, msg)] so
    far. *)
Fixpoint _pipe_receive (json_loads : string → result pyval)
    (env : list pass) (handed : list pyval) : loop_end * list pyval :=
  match env with
  | [] => (LoopRunning, handed)
  | p :: env =>
      let body :=
        match polled p with
        | Some received =>
            let? msg_json := received in
            let? msg := json_loads msg_json in
            Ok (handed ++ [msg])%list
        | None => Ok handed
        end in
      match body with
      | Raise e => (LoopFailed e, handed)
      | Ok handed =>
          if negb (running_at_check p) then (LoopStopped, handed)
          else _pipe_receive json_loads env handed
      end
  end.

(** The message that a pass takes from the pipe, if any. *)
Definition pass_received (p : pass) : list string :=
  match polled p with Some (Ok msg) => [msg] | _ => [] end.

(** The exception that ends a pass of [_receive_conn_thread], if any:
    raised by [recv], by the manager or by the write of the response. *)
Definition pass_fails_receive (handle : string → result (option string))
    (p : pass) : option exn :=
  match polled p with
  | Some (Raise e) => Some e
  | Some (Ok msg) =>
      match handle msg with
      | Raise e => Some e
      | Ok (Some _) => response_send_raises p
      | Ok None => None
      end
  | None => None
  end.

(** The exception that ends a pass of [_pipe_receive], if any: raised
    by [recv] or by [json.loads]. *)
Definition pass_fails_decode (json_loads : string → result pyval)
    (p : pass) : option exn :=
  match polled p with
  | Some (Raise e) => Some e
  | Some (Ok msg_json) =>
      match json_loads msg_json with Raise e => Some e | Ok _ => None end
  | None => None
  end.

(** A pass after which the loop goes on: the flag is found set and
    nothing was raised. *)
Definition pass_continues {A} (fails : pass → option A) (p : pass) : Prop :=
  running_at_check p = true ∧ fails p = None.

(** The responses that [handle] gives to a list of messages, in order. *)
Definition responses_to (handle : string → result (option string))
    (msgs : list string) : list string :=
  omap (fun msg => match handle msg with Ok r => r | Raise _ => None end) msgs.

(** The values that [json_loads] gives for a list of messages, in order. *)
Definition decoded (json_loads : string → result pyval)
    (msgs : list string) : list pyval :=
  omap (fun msg => match json_loads msg with Ok v => Some v | Raise _ => None end) msgs.

(** The messages that a trace shows written to the pipe, in order. *)
Definition pipe_writes (tr : list event) : list string :=
  omap (fun e => match e with EvConnSend msg_json => Some msg_json | _ => None end) tr.

(** What a trace shows of the writes to the pipe: [Some f] while the
    request that waits on the future [f] has neither been answered nor
    timed out.  A write while a request is outstanding breaks the
    discipline. *)
Definition send_event (o : option (option nat)) (e : event)
    : option (option nat) :=
  match o with
  | None => None
  | Some outstanding =>
      match e with
      | EvConnSend _ =>
          match outstanding with None => Some None | Some _ => None end
      | EvWaitFor f _ =>
          match outstanding with None => Some (Some f) | Some _ => None end
      | EvSetResult f _ | EvCancel f =>
          match outstanding with
          | Some g => if bool_decide (f = g) then Some None else o
          | None => o
          end
      | _ => o
      end
  end.

Definition send_discipline (tr : list event) : option (option nat) :=
  foldl send_event (Some None) tr.

(** The request that is outstanding according to the attributes. *)
Definition outstanding_request (c : PipeJsonRpcSendAsync) : option nat :=
  match _fut_comm c with
  | Some f =>
      match loop_futures c !! f with
      | Some FutPending => Some f
      | _ => None
      end
  | None => None
  end.

(** The invariant of the loop, with the discipline of the writes: the
    trace agrees with the attributes on the outstanding request. *)
Definition writes_invariant (sy : system) : Prop :=
  pipe_invariant sy
  ∧ send_discipline (trace (client sy)) = Some (outstanding_request (client sy)).

(** [socket.close()] and the record of a message sent, on one socket. *)
Definition close_socket (sock : zmq_socket) : zmq_socket :=
  {| connected_to := connected_to sock; RCVTIMEO := RCVTIMEO sock;
     SNDTIMEO := SNDTIMEO sock; LINGER := LINGER sock;
     closed := true; sent := sent sock |}.

Definition record_sent (msg : pyval) (sock : zmq_socket) : zmq_socket :=
  {| connected_to := connected_to sock; RCVTIMEO := RCVTIMEO sock;
     SNDTIMEO := SNDTIMEO sock; LINGER := LINGER sock;
     closed := closed sock; sent := (sent sock ++ [msg])%list |}.

(** A series of calls of [send_message] on one instance. *)
Record zmq_call : Type := {
  zmq_method : string;
  zmq_params : pyval;
  zmq_raise_exceptions : bool;
  zmq_exchange : exchange
}.

Definition send_messages {rt : PyRuntime} (calls : list zmq_call)
    (z : ZMQCommSendAsync) : ZMQCommSendAsync :=
  foldl (fun z c =>
           snd (send_message (zmq_method c) (zmq_params c)
                  (zmq_raise_exceptions c) (zmq_exchange c) z))
    z calls.

(** The socket in [_zmq_socket] is the only open socket of the context. *)
Definition sole_open (z : ZMQCommSendAsync) : Prop :=
  ∃ r, _zmq_socket z = Some r
       ∧ ∀ i sock, ctx_sockets z !! i = Some sock →
                   (closed sock = false ↔ i = r).

(** What a series of calls keeps. *)
Definition sockets_invariant {rt : PyRuntime} (z : ZMQCommSendAsync) : Prop :=
  zmq_ready z ∧ sole_open z.

Definition exchange_failed (c : zmq_call) : bool :=
  match exchange_error (zmq_exchange c) with Some _ => true | None => false end.

(** The address that [__init__] keeps: the default for [None] and for
    the empty string. *)
Definition address_or_default (zmq_server_address : option string) : string :=
  match zmq_server_address with
  | Some a => if bool_decide (a = "") then "tcp://localhost:5555" else a
  | None => "tcp://localhost:5555"
  end.

(** ** Concrete inputs

    Used to evaluate the definitions; the runtime is [demo_runtime]. *)

Definition demo_idle : PipeJsonRpcSendAsync := PipeJsonRpcSendAsync_init (1 # 2).

(** The instance while a call of [echo] with the id ["u1"] is waiting. *)
Definition demo_waiting : PipeJsonRpcSendAsync :=
  snd (send_msg_begin (rt := demo_runtime) "echo" PNone false None "u1" None demo_idle).

Definition demo_result : pydict :=
  <["id" := PStr "u1"]> (<["result" := PInt 7]> ∅).

Definition demo_stray : pydict :=
  <["id" := PStr "zz"]> (<["result" := PInt 7]> ∅).

Definition demo_no_id : pydict := <["result" := PInt 7]> ∅.

Definition demo_data : pydict :=
  <["type" := PStr "ValueError"]> (<["message" := PStr "bad value"]> ∅).

Definition demo_error_object : pydict :=
  <["code" := PInt (-32000)]> (<["message" := PStr "Server error"]>
    (<["data" := PDict demo_data]> ∅)).

Definition demo_error_data : pydict :=
  <["id" := PStr "u1"]> (<["error" := PDict demo_error_object]> ∅).

Definition demo_error_object_plain : pydict :=
  <["code" := PInt (-32601)]> (<["message" := PStr "Method not found"]> ∅).

Definition demo_error_plain : pydict :=
  <["id" := PStr "u1"]> (<["error" := PDict demo_error_object_plain]> ∅).

Definition demo_neither : pydict := <["id" := PStr "u1"]> ∅.

(** An exchange in which the peer never answers: [recv_json] raises
    [zmq.error.Again] when [RCVTIMEO] expires. *)
Definition demo_unanswered : exchange :=
  {| send_json_raises := None;
     recv_json_gives := Raise (LibError "Again" "Resource temporarily unavailable") |}.

Definition demo_client : ZMQCommSendAsync :=
  snd (ZMQCommSendAsync_init (rt := demo_runtime) None 2000 500 false).

Definition demo_call (notification : bool) : call_args :=
  {| call_method := "echo"; call_params := PNone;
     call_notification := notification; call_timeout := None |}.

(** A dispatcher for evaluation: ["notify"] is a notification, ["boom"]
    makes the manager raise, any other message is answered. *)
Definition demo_handle (msg : string) : result (option string) :=
  if bool_decide (msg = "notify") then Ok None
  else if bool_decide (msg = "boom") then Raise (LibError "ValueError" "boom")
  else Ok (Some ("re:" ++ msg)).

(** A decoder for evaluation: ["{"] is not JSON. *)
Definition demo_loads (msg_json : string) : result pyval :=
  if bool_decide (msg_json = "{") then
    Raise (LibError "JSONDecodeError" "Expecting property name")
  else Ok (PDict (<["id" := PStr msg_json]> ∅)).

Definition demo_pass (msg : string) (running : bool) : pass :=
  {| polled := Some (Ok msg); response_send_raises := None;
     running_at_check := running |}.

(** The instance after a call that timed out. *)
Definition demo_used : PipeJsonRpcSendAsync :=
  match send_msg (rt := demo_runtime) "echo" PNone false None "u0" None
          [demo_stray] [] [] demo_idle with
  | Some (_, s) => s
  | None => demo_idle
  end.

(** An exchange in which the peer answers. *)
Definition demo_answered : exchange :=
  {| send_json_raises := None;
     recv_json_gives := Ok (PDict (<["success" := PBool true]> ∅)) |}.

Definition demo_zmq_call (net : exchange) : zmq_call :=
  {| zmq_method := "status"; zmq_params := PNone;
     zmq_raise_exceptions := false; zmq_exchange := net |}.

(** * Properties *)

#[local] Open Scope list_scope.

(** ** The encoder *)

Example format_jsonrpc_msg_call :
  format_jsonrpc_msg "echo" (PList [PInt 1]) false "u-1"
  = <["id" := PStr "u-1"]> (<["params" := PList [PInt 1]]>
      (<["jsonrpc" := PStr "2.0"]> (<["method" := PStr "echo"]> ∅))).
Proof. reflexivity. Qed.

Example format_jsonrpc_msg_notification :
  format_jsonrpc_msg "heartbeat" PNone true "u-1"
  = <["jsonrpc" := PStr "2.0"]> (<["method" := PStr "heartbeat"]> ∅).
Proof. reflexivity. Qed.

(** C8.  For every method name, params value and notification flag,
    [format_jsonrpc_msg] returns a mapping whose keys are exactly
    ["method"] and ["jsonrpc"], plus ["params"] if and only if params is
    not [None], plus ["id"] if and only if the message is not a
    notification; ["method"] holds the given name, ["jsonrpc"] the literal
    ["2.0"], ["params"] the given value and ["id"] the generated token as
    a string. *)
Theorem format_jsonrpc_msg_shape (method : string) (params : pyval)
    (notification : bool) (uuid4 : string) :
  let msg := format_jsonrpc_msg method params notification uuid4 in
  msg !! "method" = Some (PStr method) ∧
  msg !! "jsonrpc" = Some (PStr "2.0") ∧
  msg !! "params" = match params with PNone => None | _ => Some params end ∧
  msg !! "id" = (if notification then None else Some (PStr uuid4)) ∧
  dom msg = {["method"; "jsonrpc"]}
            ∪ match params with PNone => ∅ | _ => {["params"]} end
            ∪ (if notification then ∅ else {["id"]}).
Proof.
  unfold format_jsonrpc_msg.
  destruct notification; destruct params; simpl; repeat split;
    rewrite ?lookup_insert_eq, ?lookup_insert_ne, ?lookup_empty by done;
    try reflexivity;
    rewrite ?dom_insert_L, ?dom_empty_L; set_solver.
Qed.

(** ** The pipe client: correlation of responses *)

Ltac unfold_monad :=
  unfold mbind, mret, mraise, mlift, mget, mmodify, try_finally, try_except.

Ltac unfold_pipe :=
  unfold logger_error, future_set_result, future_cancel, future_result,
    create_future, conn_send, set_fut_comm, set_expected_msg_id, set_lock_comm,
    set_loop_futures, emit.

Lemma is_str_true (expected : string) (v : pyval) :
  is_str expected v = true ↔ v = PStr expected.
Proof.
  destruct v; simpl; try (split; [discriminate | congruence]).
  rewrite bool_decide_eq_true. split; [intros ->; reflexivity | congruence].
Qed.

Section pipe_correlation.
Context {rt : PyRuntime}.

Lemma response_received_unsolicited s response :
  _expected_msg_id s = None →
  _response_received response s
  = (Ok tt, snd (logger_error (LogUnsolicited response) s)).
Proof.
  intros He. unfold _response_received. unfold_monad.
  rewrite He. reflexivity.
Qed.

Lemma response_received_missing_id s response expected :
  _expected_msg_id s = Some expected → response !! "id" = None →
  _response_received response s
  = (Ok tt, snd (logger_error (LogMissingId response) s)).
Proof.
  intros He Hid. unfold _response_received, dict_contains. unfold_monad.
  rewrite He, Hid. reflexivity.
Qed.

Lemma response_received_incorrect_id s response expected got :
  _expected_msg_id s = Some expected → response !! "id" = Some got →
  got ≠ PStr expected →
  _response_received response s
  = (Ok tt, snd (logger_error (LogIncorrectId got expected response) s)).
Proof.
  intros He Hid Hne.
  unfold _response_received, dict_contains, dict_getitem. unfold_monad.
  rewrite He, Hid.
  destruct (is_str expected got) eqn:Hs.
  - apply is_str_true in Hs. contradiction.
  - reflexivity.
Qed.

Lemma response_received_match s response expected f :
  _expected_msg_id s = Some expected →
  response !! "id" = Some (PStr expected) →
  _fut_comm s = Some f →
  _response_received response s = future_set_result f response s.
Proof.
  intros He Hid Hf.
  unfold _response_received, dict_contains, dict_getitem. unfold_monad.
  rewrite He, Hid, Hf. simpl. rewrite bool_decide_true by reflexivity.
  reflexivity.
Qed.

(** C2.  A message handed to [_response_received] when no request is
    expected, or without an id, or with an id that differs from the
    expected one, is logged with [logger.error] and dropped: nothing is
    raised and nothing but the log changes.  The pending future is
    completed with the message if and only if the id of the message is
    the expected id. *)
Theorem response_received_correlation (s : PipeJsonRpcSendAsync)
    (response : pydict) :
  (_expected_msg_id s = None →
     _response_received response s
     = (Ok tt, snd (logger_error (LogUnsolicited response) s)))
  ∧ (∀ expected, _expected_msg_id s = Some expected →
       response !! "id" = None →
       _response_received response s
       = (Ok tt, snd (logger_error (LogMissingId response) s)))
  ∧ (∀ expected got, _expected_msg_id s = Some expected →
       response !! "id" = Some got → got ≠ PStr expected →
       _response_received response s
       = (Ok tt, snd (logger_error (LogIncorrectId got expected response) s)))
  ∧ (∀ f, _fut_comm s = Some f → loop_futures s !! f = Some FutPending →
       (id_matches s response →
          fst (_response_received response s) = Ok tt)
       ∧ (loop_futures (deliver response s) !! f = Some (FutResult response)
          ↔ id_matches s response)).
Proof.
  split; [apply response_received_unsolicited |].
  split; [apply response_received_missing_id |].
  split; [apply response_received_incorrect_id |].
  intros f Hf Hp.
  assert (Hm : id_matches s response →
               _response_received response s
               = (Ok tt, snd (future_set_result f response s))).
  { intros (e & He & Hid).
    rewrite (response_received_match _ _ _ _ He Hid Hf).
    unfold future_set_result. unfold_monad. rewrite Hp. reflexivity. }
  split.
  - intros Hmatch. rewrite (Hm Hmatch). reflexivity.
  - split.
    + intros Hdone.
      destruct (_expected_msg_id s) as [e|] eqn:He.
      * destruct (response !! "id") as [got|] eqn:Hid.
        -- destruct (decide (is_str e got = true)) as [Hs|Hs].
           ++ apply is_str_true in Hs. subst got. exists e. auto.
           ++ exfalso. unfold deliver in Hdone.
              rewrite (response_received_incorrect_id _ _ _ _ He Hid) in Hdone.
              ** simpl in Hdone. congruence.
              ** intros ->. apply Hs. apply is_str_true. reflexivity.
        -- exfalso. unfold deliver in Hdone.
           rewrite (response_received_missing_id _ _ _ He Hid) in Hdone.
           simpl in Hdone. congruence.
      * exfalso. unfold deliver in Hdone.
        rewrite (response_received_unsolicited _ _ He) in Hdone.
        simpl in Hdone. congruence.
    + intros Hmatch. unfold deliver. rewrite (Hm Hmatch).
      unfold future_set_result. unfold_monad. rewrite Hp. simpl.
      apply list_lookup_insert_eq. eapply lookup_lt_Some; eassumption.
Qed.
End pipe_correlation.

(** ** The pipe client: one call of [send_msg] *)

Ltac unfold_send_msg :=
  unfold send_msg_begin, send_msg_resume, send_msg_unwind, send_msg_finally,
    send_msg_to_await, send_msg_from_await, wait_for_resumed.

Ltac tidy_trace := repeat rewrite <- app_assoc; simpl.

Section pipe_call.
Context {rt : PyRuntime}.

Lemma send_msg_begin_blocked method params notification timeout uuid4 send_err s :
  _lock_comm s = true →
  send_msg_begin method params notification timeout uuid4 send_err s = (Blocked, s).
Proof. intros Hl. unfold send_msg_begin. rewrite Hl. reflexivity. Qed.

(** A notification that is written to the pipe. *)
Lemma send_msg_begin_notification method params timeout uuid4 s msg_json :
  _lock_comm s = false →
  json_dumps (format_jsonrpc_msg method params true uuid4) = Ok msg_json →
  send_msg_begin method params true timeout uuid4 None s
  = (Completed (Ok PNone),
     {| _fut_comm := None; _lock_comm := false;
        _timeout_comm := _timeout_comm s; _expected_msg_id := None;
        loop_futures := loop_futures s;
        trace := trace s ++ [EvLockAcquire; EvConnSend msg_json;
                             EvSetFutComm None; EvSetExpectedMsgId None;
                             EvLockRelease] |}).
Proof.
  intros Hl Hd. unfold_send_msg. rewrite Hl.
  unfold_pipe. unfold_monad. simpl. rewrite Hd. simpl.
  tidy_trace. reflexivity.
Qed.

(** A notification never suspends, whatever [json.dumps] and the pipe
    do, and leaves the futures of the loop alone. *)
Lemma send_msg_begin_notification_completes method params timeout uuid4 send_err s :
  _lock_comm s = false →
  ∃ r s', send_msg_begin method params true timeout uuid4 send_err s
          = (Completed r, s')
          ∧ loop_futures s' = loop_futures s
          ∧ _fut_comm s' = None ∧ _expected_msg_id s' = None
          ∧ _lock_comm s' = false
          ∧ ∃ sent, trace s' = (trace s ++ EvLockAcquire :: sent ++
                        [EvSetFutComm None; EvSetExpectedMsgId None; EvLockRelease])%list
                    ∧ ∀ e, e ∈ sent → ∃ msg_json, e = EvConnSend msg_json.
Proof.
  intros Hl. unfold_send_msg. rewrite Hl.
  unfold_pipe. unfold_monad. simpl.
  destruct (json_dumps _) as [msg_json|e]; simpl.
  - destruct send_err as [e|]; simpl.
    + destruct (is_asyncio_timeout e); simpl;
        eexists _, _; (split; [reflexivity |]); simpl; repeat split;
        exists []; tidy_trace; (split; [reflexivity | intros ? []%elem_of_nil]).
    + eexists _, _; (split; [reflexivity |]); simpl; repeat split.
      exists [EvConnSend msg_json]; tidy_trace. split; [reflexivity |].
      intros e ->%list_elem_of_singleton. eauto.
  - destruct (is_asyncio_timeout e); simpl;
      eexists _, _; (split; [reflexivity |]); simpl; repeat split;
      exists []; tidy_trace; (split; [reflexivity | intros ? []%elem_of_nil]).
Qed.
End pipe_call.

Lemma lock_discipline_app (tr evs : list event) :
  lock_discipline (tr ++ evs) = foldl lock_event (lock_discipline tr) evs.
Proof. unfold lock_discipline. apply foldl_app. Qed.

Section pipe_segments.
Context {rt : PyRuntime}.

(** A request that is written to the pipe: the call suspends in
    [wait_for] with the id recorded and a new future in the slot. *)
Lemma send_msg_begin_request method params timeout uuid4 s msg_json :
  _lock_comm s = false →
  json_dumps (format_jsonrpc_msg method params false uuid4) = Ok msg_json →
  let f := length (loop_futures s) in
  let t := match timeout with Some t => t | None => _timeout_comm s end in
  send_msg_begin method params false timeout uuid4 None s
  = (Awaiting (format_jsonrpc_msg method params false uuid4) f,
     {| _fut_comm := Some f; _lock_comm := true;
        _timeout_comm := _timeout_comm s; _expected_msg_id := Some uuid4;
        loop_futures := loop_futures s ++ [FutPending];
        trace := trace s ++ [EvLockAcquire; EvConnSend msg_json;
                             EvSetExpectedMsgId (Some uuid4); EvCreateFuture f;
                             EvSetFutComm (Some f); EvWaitFor f t] |}).
Proof.
  intros Hl Hd. unfold_send_msg. rewrite Hl.
  unfold_pipe. unfold_monad. simpl. rewrite Hd. simpl.
  unfold dict_getitem, format_jsonrpc_msg. simpl.
  rewrite lookup_insert_eq. simpl. tidy_trace. reflexivity.
Qed.

(** Every first run of [send_msg] that finds the lock free. *)
Lemma send_msg_begin_free method params notification timeout uuid4 send_err s :
  _lock_comm s = false →
  match send_msg_begin method params notification timeout uuid4 send_err s with
  | (Blocked, _) => False
  | (Awaiting msg f, s') =>
      notification = false
      ∧ msg = format_jsonrpc_msg method params false uuid4
      ∧ f = length (loop_futures s)
      ∧ loop_futures s' = loop_futures s ++ [FutPending]
      ∧ _fut_comm s' = Some f ∧ _expected_msg_id s' = Some uuid4
      ∧ _lock_comm s' = true
      ∧ ∃ msg_json t,
          trace s' = trace s ++ [EvLockAcquire; EvConnSend msg_json;
                                 EvSetExpectedMsgId (Some uuid4); EvCreateFuture f;
                                 EvSetFutComm (Some f); EvWaitFor f t]
  | (Completed r, s') =>
      loop_futures s' = loop_futures s
      ∧ _fut_comm s' = None ∧ _expected_msg_id s' = None
      ∧ _lock_comm s' = false
      ∧ ∃ evs, trace s' = trace s ++ EvLockAcquire :: evs ++
                   [EvSetFutComm None; EvSetExpectedMsgId None; EvLockRelease]
               ∧ (evs = [] ∨ ∃ msg_json, evs = [EvConnSend msg_json])
  end.
Proof.
  intros Hl. unfold_send_msg. rewrite Hl.
  unfold_pipe. unfold_monad. simpl.
  destruct (json_dumps _) as [msg_json|e]; simpl.
  - destruct send_err as [e|]; simpl.
    + destruct (is_asyncio_timeout e); simpl; repeat split;
        exists []; tidy_trace; auto.
    + destruct notification; simpl.
      * repeat split. exists [EvConnSend msg_json]; tidy_trace; eauto.
      * unfold dict_getitem, format_jsonrpc_msg. simpl.
        rewrite lookup_insert_eq. simpl. repeat split.
        eexists _, _; tidy_trace; reflexivity.
  - destruct (is_asyncio_timeout e); simpl; repeat split;
      exists []; tidy_trace; auto.
Qed.

(** Every run of [send_msg] from the resumption: the attributes are
    cleared, then the lock is released. *)
Lemma send_msg_resume_unwinds msg f s :
  ∃ r s', send_msg_resume msg f s = (r, s')
    ∧ length (loop_futures s') = length (loop_futures s)
    ∧ _fut_comm s' = None ∧ _expected_msg_id s' = None
    ∧ _lock_comm s' = false
    ∧ ∃ evs, trace s' = (trace s ++ evs ++
                 [EvSetFutComm None; EvSetExpectedMsgId None; EvLockRelease])%list
             ∧ (evs = [] ∨ evs = [EvCancel f]).
Proof.
  unfold_send_msg. unfold_pipe. unfold_monad. simpl.
  destruct (loop_futures s !! f) as [[|r|]|] eqn:Hf; simpl; rewrite ?Hf; simpl.
  - (* still pending: cancelled by wait_for *)
    eexists _, _. split; [reflexivity |]. simpl.
    rewrite length_insert. repeat split.
    exists [EvCancel f]. tidy_trace. auto.
  - destruct (_fut_comm s) as [f'|] eqn:Hfc; simpl.
    + destruct (loop_futures s !! f') as [[|r'|]|] eqn:Hf'; simpl;
        try (eexists _, _; (split; [reflexivity |]); simpl; repeat split;
             exists []; tidy_trace; auto).
      destruct (handle_response msg r') as [v|e]; simpl.
      * eexists _, _. split; [reflexivity |]. simpl. repeat split.
        exists []. tidy_trace. auto.
      * destruct (is_asyncio_timeout e); simpl;
          eexists _, _; (split; [reflexivity |]); simpl; repeat split;
          exists []; tidy_trace; auto.
    + eexists _, _. split; [reflexivity |]. simpl. repeat split.
      exists []. tidy_trace. auto.
  - eexists _, _. split; [reflexivity |]. simpl. repeat split.
    exists []. tidy_trace. auto.
  - eexists _, _. split; [reflexivity |]. simpl. repeat split.
    exists []. tidy_trace. auto.
Qed.
End pipe_segments.

Lemma py_getitem_not_timeout v key e :
  py_getitem v key = Raise e → is_asyncio_timeout e = false.
Proof.
  destruct v; simpl; unfold dict_getitem;
    try destruct (_ !! _); intros [= <-]; reflexivity.
Qed.

Lemma py_contains_not_timeout v key e :
  py_contains v key = Raise e → is_asyncio_timeout e = false.
Proof. destruct v; simpl; intros [= <-]; reflexivity. Qed.

Section pipe_waiting.
Context {rt : PyRuntime}.

Lemma answers_spec expected response :
  answers expected response = true ↔ response !! "id" = Some (PStr expected).
Proof.
  unfold answers. destruct (response !! "id") as [v|].
  - rewrite is_str_true. split; congruence.
  - split; discriminate.
Qed.

Lemma handle_response_not_timeout msg response e :
  handle_response msg response = Raise e → is_asyncio_timeout e = false.
Proof.
  unfold handle_response.
  destruct (dict_contains response "result").
  { apply (py_getitem_not_timeout (PDict response)). }
  destruct (dict_contains response "error"); [| intros [= <-]; reflexivity].
  destruct (dict_getitem response "error") as [error|e0] eqn:E0; simpl.
  2: { intros [= <-]. apply (py_getitem_not_timeout (PDict response) _ _ E0). }
  destruct (py_getitem error "code") as [code|e1] eqn:E1; simpl.
  2: { intros [= <-]. eapply py_getitem_not_timeout, E1. }
  destruct (py_contains error "data") as [[|]|e2] eqn:E2; simpl.
  3: { intros [= <-]. eapply py_contains_not_timeout, E2. }
  - destruct (py_getitem error "data") as [data|e3] eqn:E3; simpl.
    2: { intros [= <-]. eapply py_getitem_not_timeout, E3. }
    destruct (py_getitem data "type") as [ty|e4] eqn:E4; simpl.
    2: { intros [= <-]. eapply py_getitem_not_timeout, E4. }
    destruct (py_getitem error "message") as [m|e5] eqn:E5; simpl.
    2: { intros [= <-]. eapply py_getitem_not_timeout, E5. }
    destruct (py_getitem data "message") as [dm|e6] eqn:E6; simpl.
    2: { intros [= <-]. eapply py_getitem_not_timeout, E6. }
    intros [= <-]. reflexivity.
  - destruct (py_getitem error "message") as [m|e5] eqn:E5; simpl.
    2: { intros [= <-]. eapply py_getitem_not_timeout, E5. }
    intros [= <-]. reflexivity.
Qed.

(** What one delivered message does to the slot of the waiting call. *)
Lemma deliver_slot response s u f :
  _expected_msg_id s = Some u → _fut_comm s = Some f →
  let s' := deliver response s in
  _expected_msg_id s' = Some u ∧ _fut_comm s' = Some f
  ∧ _lock_comm s' = _lock_comm s
  ∧ length (loop_futures s') = length (loop_futures s)
  ∧ loop_futures s' !! f
    = match loop_futures s !! f with
      | Some FutPending =>
          if answers u response then Some (FutResult response) else Some FutPending
      | other => other
      end.
Proof.
  intros He Hf. unfold deliver, _response_received, answers, dict_contains, dict_getitem.
  unfold_monad. rewrite He.
  destruct (response !! "id") as [id|] eqn:Hid; simpl.
  - destruct (is_str u id) eqn:Hs; simpl.
    + rewrite Hf. unfold_pipe. unfold_monad.
      destruct (loop_futures s !! f) as [[|r|]|] eqn:Hp; simpl; rewrite ?Hp; auto.
      rewrite length_insert. repeat split; auto.
      apply list_lookup_insert_eq. eapply lookup_lt_Some; eassumption.
    + repeat split; auto. destruct (loop_futures s !! f) as [[| |]|]; reflexivity.
  - repeat split; auto. destruct (loop_futures s !! f) as [[| |]|]; reflexivity.
Qed.

Lemma deliver_all_slot rs : ∀ s u f,
  _expected_msg_id s = Some u → _fut_comm s = Some f →
  let s' := foldl (fun s r => deliver r s) s rs in
  _expected_msg_id s' = Some u ∧ _fut_comm s' = Some f
  ∧ _lock_comm s' = _lock_comm s
  ∧ length (loop_futures s') = length (loop_futures s)
  ∧ loop_futures s' !! f
    = match loop_futures s !! f with
      | Some FutPending =>
          match find (answers u) rs with
          | Some response => Some (FutResult response)
          | None => Some FutPending
          end
      | other => other
      end.
Proof.
  induction rs as [|r rs IH]; intros s u f He Hf; simpl.
  - repeat split; auto. destruct (loop_futures s !! f) as [[| |]|]; reflexivity.
  - destruct (deliver_slot r s u f He Hf) as (He' & Hf' & Hl' & Hn' & Hs').
    destruct (IH (deliver r s) u f He' Hf') as (He2 & Hf2 & Hl2 & Hn2 & Hs2).
    repeat split; try congruence.
    rewrite Hs2, Hs'.
    destruct (loop_futures s !! f) as [[| |]|]; try reflexivity.
    destruct (answers u r); reflexivity.
Qed.

Lemma cancel_and_wait_slot f s :
  let s' := cancel_and_wait f s in
  _expected_msg_id s' = _expected_msg_id s ∧ _fut_comm s' = _fut_comm s
  ∧ _lock_comm s' = _lock_comm s
  ∧ length (loop_futures s') = length (loop_futures s)
  ∧ loop_futures s' !! f
    = match loop_futures s !! f with
      | Some FutPending => Some FutCancelled
      | other => other
      end.
Proof.
  unfold cancel_and_wait. unfold_pipe. unfold_monad.
  destruct (loop_futures s !! f) as [[|r|]|] eqn:Hp; simpl; rewrite ?Hp; auto.
  rewrite length_insert. repeat split; auto.
  apply list_lookup_insert_eq. eapply lookup_lt_Some; eassumption.
Qed.

Lemma send_msg_resume_result msg f s response :
  _fut_comm s = Some f → loop_futures s !! f = Some (FutResult response) →
  fst (send_msg_resume msg f s) = handle_response msg response.
Proof.
  intros Hf Hp. unfold_send_msg. unfold_pipe. unfold_monad. simpl.
  rewrite Hp. simpl. rewrite Hf. simpl. rewrite Hp. simpl.
  pose proof (handle_response_not_timeout msg response) as Hnt.
  destruct (handle_response msg response) as [v|e]; simpl; [reflexivity |].
  rewrite (Hnt e eq_refl). reflexivity.
Qed.

Lemma send_msg_resume_timeout msg f s :
  (∀ response, loop_futures s !! f ≠ Some (FutResult response)) →
  fst (send_msg_resume msg f s) = Raise (CommTimeoutError (timeout_text msg)).
Proof.
  intros Hp. unfold_send_msg. unfold_pipe. unfold_monad. simpl.
  destruct (loop_futures s !! f) as [[|r|]|] eqn:Hq; simpl; rewrite ?Hq; simpl;
    try reflexivity.
  exfalso. eapply Hp. reflexivity.
Qed.

(** The outcome of a request that was written to the pipe: the first
    message that answers it and is handled before the call is resumed,
    whether or not the timer had fired, decides; without one the call
    times out. *)
Lemma send_msg_request_outcome method params timeout uuid4 incoming racing late s
    msg_json :
  _lock_comm s = false →
  json_dumps (format_jsonrpc_msg method params false uuid4) = Ok msg_json →
  ∃ s', send_msg method params false timeout uuid4 None incoming racing late s
        = Some (match find (answers uuid4) (incoming ++ racing) with
                | Some response =>
                    handle_response (format_jsonrpc_msg method params false uuid4) response
                | None =>
                    Raise (CommTimeoutError
                             (timeout_text (format_jsonrpc_msg method params false uuid4)))
                end, s').
Proof.
  intros Hl Hd. unfold send_msg.
  rewrite (send_msg_begin_request _ _ _ _ _ _ Hl Hd).
  set (msg := format_jsonrpc_msg method params false uuid4).
  set (f := length (loop_futures s)).
  match goal with |- context [foldl _ ?s0 incoming] => set (s1 := s0) end.
  rewrite <- (foldl_app _ incoming racing s1).
  assert (Hp1 : loop_futures s1 !! f = Some FutPending).
  { subst s1 f. simpl. rewrite lookup_app_r by lia.
    rewrite Nat.sub_diag. reflexivity. }
  destruct (deliver_all_slot (incoming ++ racing) s1 uuid4 f eq_refl eq_refl)
    as (He2 & Hf2 & _ & _ & Hs2).
  rewrite Hp1 in Hs2.
  set (s2 := foldl (fun s r => deliver r s) s1 (incoming ++ racing)) in *.
  destruct (cancel_and_wait_slot f s2) as (He3 & Hf3 & _ & _ & Hs3).
  set (s3 := cancel_and_wait f s2) in *.
  rewrite He2 in He3. rewrite Hf2 in Hf3.
  destruct (deliver_all_slot late s3 uuid4 f He3 Hf3) as (He4 & Hf4 & _ & _ & Hs4).
  set (s4 := foldl (fun s r => deliver r s) s3 late) in *.
  destruct (send_msg_resume msg f s4) as [r s'] eqn:Hr.
  exists s'. f_equal. f_equal.
  change r with (fst (r, s')). rewrite <- Hr.
  destruct (find (answers uuid4) (incoming ++ racing)) as [response|].
  - apply send_msg_resume_result; [assumption |].
    rewrite Hs4, Hs3, Hs2. reflexivity.
  - apply send_msg_resume_timeout. intros response.
    rewrite Hs4, Hs3, Hs2. discriminate.
Qed.
End pipe_waiting.

Lemma find_none_iff {A} (p : A → bool) (l : list A) :
  find p l = None ↔ ∀ x, x ∈ l → p x = false.
Proof.
  induction l as [|a l IH]; simpl.
  - split; [intros _ x Hx; inversion Hx | reflexivity].
  - destruct (p a) eqn:Hp.
    + split; [discriminate |]. intros Hall.
      rewrite (Hall a) in Hp by constructor. discriminate.
    + rewrite IH. split.
      * intros Hall x Hx. inversion Hx; subst; auto.
      * intros Hall x Hx. apply Hall. by constructor.
Qed.

Lemma find_first {A} (p : A → bool) (before after : list A) (x : A) :
  (∀ y, y ∈ before → p y = false) → p x = true →
  find p (before ++ x :: after) = Some x.
Proof.
  induction before as [|b before IH]; simpl; intros Hall Hx.
  - rewrite Hx. reflexivity.
  - rewrite (Hall b) by constructor. apply IH; [| assumption].
    intros y Hy. apply Hall. by constructor.
Qed.

Section pipe_call_properties.
Context {rt : PyRuntime}.

(** Every call of [send_msg] that finds the lock free ends, with the
    attributes cleared and then the lock released. *)
Lemma send_msg_exits method params notification timeout uuid4 send_err
    incoming racing late s :
  _lock_comm s = false →
  ∃ r s', send_msg method params notification timeout uuid4 send_err
            incoming racing late s = Some (r, s')
    ∧ _expected_msg_id s' = None ∧ _fut_comm s' = None
    ∧ _lock_comm s' = false
    ∧ ∃ evs, trace s' = trace s ++ evs ++
               [EvSetFutComm None; EvSetExpectedMsgId None; EvLockRelease].
Proof.
  intros Hl. unfold send_msg.
  pose proof (send_msg_begin_free method params notification timeout uuid4
                send_err s Hl) as Hb.
  destruct (send_msg_begin _ _ _ _ _ _ s) as [[|msg f|r] s1]; [done | |].
  - destruct Hb as (_ & _ & _ & _ & _ & _ & _ & msg_json & t & Ht).
    match goal with |- context [send_msg_resume msg f ?s0] => set (s4 := s0) end.
    destruct (send_msg_resume_unwinds msg f s4)
      as (r & s' & Hr & _ & Hf & He & Hl' & evs & Ht' & _).
    exists r, s'. rewrite Hr. repeat split; try assumption.
    assert (Hmid : ∃ mid, trace s4 = trace s1 ++ mid).
    { subst s4.
      assert (Hd : ∀ rs s0, ∃ mid,
                 trace (foldl (fun s r => deliver r s) s0 rs) = trace s0 ++ mid).
      { induction rs as [|r0 rs IH]; intros s0; simpl.
        - exists []. by rewrite app_nil_r.
        - destruct (IH (deliver r0 s0)) as [mid Hm]. rewrite Hm.
          assert (∃ one, trace (deliver r0 s0) = trace s0 ++ one) as [one ->].
          { unfold deliver, _response_received. unfold_monad.
            destruct (_expected_msg_id s0); simpl; [| eauto].
            destruct (dict_contains r0 "id"); simpl; [| eauto].
            destruct (dict_getitem r0 "id"); simpl;
              [| exists []; by rewrite app_nil_r].
            destruct (negb _); simpl; [eauto |].
            destruct (_fut_comm s0) as [f0|]; simpl;
              [| exists []; by rewrite app_nil_r].
            unfold_pipe. unfold_monad.
            destruct (loop_futures s0 !! f0) as [[| |]|]; simpl; eauto;
              exists []; by rewrite app_nil_r. }
          exists (one ++ mid). by rewrite app_assoc. }
      rewrite <- (foldl_app _ incoming racing s1).
      destruct (Hd late (cancel_and_wait f
                  (foldl (fun s r => deliver r s) s1 (incoming ++ racing))))
        as [m3 ->].
      assert (∃ m2, trace (cancel_and_wait f
                      (foldl (fun s r => deliver r s) s1 (incoming ++ racing)))
                    = trace (foldl (fun s r => deliver r s) s1 (incoming ++ racing))
                      ++ m2)
        as [m2 ->].
      { unfold cancel_and_wait. unfold_pipe. unfold_monad.
        destruct (loop_futures _ !! f) as [[| |]|]; simpl; eauto;
          exists []; by rewrite app_nil_r. }
      destruct (Hd (incoming ++ racing) s1) as [m1 ->].
      exists (m1 ++ m2 ++ m3). by rewrite !app_assoc. }
    destruct Hmid as [mid Hmid].
    exists ([EvLockAcquire; EvConnSend msg_json; EvSetExpectedMsgId (Some uuid4);
             EvCreateFuture f; EvSetFutComm (Some f); EvWaitFor f t] ++ mid ++ evs).
    rewrite Ht', Hmid, Ht. by rewrite <- !app_assoc.
  - destruct Hb as (_ & Hf & He & Hl' & evs & Ht & _).
    exists r, s1. repeat split; try assumption.
    exists (EvLockAcquire :: evs). rewrite Ht. reflexivity.
Qed.

(** X21.  Every call of [send_msg] that finds the lock free ends, and
    on every exit (return, protocol error, timeout, failure to write)
    [_fut_comm] and [_expected_msg_id] are [None] and the lock is free,
    the last three effects of the call being the two assignments of
    [None] and the release; a message that arrives after the call has
    ended is logged as unsolicited and dropped.  A call that is not a
    notification, whose message was written, and for which no message
    with the expected id is handled before the call is resumed, neither
    before the timer fires nor between its firing and the resumption,
    raises [CommTimeoutError]. *)
Theorem send_msg_timeout_and_cleanup (method : string) (params : pyval)
    (notification : bool) (timeout : option Q) (uuid4 : string)
    (send_err : option exn) (incoming racing late : list pydict)
    (s : PipeJsonRpcSendAsync) :
  _lock_comm s = false →
  ∃ r s',
    send_msg method params notification timeout uuid4 send_err
      incoming racing late s
    = Some (r, s')
    ∧ _expected_msg_id s' = None ∧ _fut_comm s' = None ∧ _lock_comm s' = false
    ∧ (∃ evs, trace s' = trace s ++ evs ++
                [EvSetFutComm None; EvSetExpectedMsgId None; EvLockRelease])
    ∧ (∀ response,
         _response_received response s'
         = (Ok tt, snd (logger_error (LogUnsolicited response) s')))
    ∧ (notification = false → send_err = None →
       is_ok (json_dumps (format_jsonrpc_msg method params false uuid4)) = true →
       (∀ response, response ∈ incoming ++ racing →
                    response !! "id" ≠ Some (PStr uuid4)) →
       r = Raise (CommTimeoutError
                    (timeout_text (format_jsonrpc_msg method params false uuid4)))).
Proof.
  intros Hl.
  destruct (send_msg_exits method params notification timeout uuid4 send_err
              incoming racing late s Hl) as (r & s' & Hs & He & Hf & Hl' & Ht).
  exists r, s'. repeat split; try assumption.
  - intros response. by apply response_received_unsolicited.
  - intros -> -> Hd Hno.
    destruct (json_dumps _) as [msg_json|] eqn:Hj; [| discriminate].
    destruct (send_msg_request_outcome method params timeout uuid4 incoming
                racing late s msg_json Hl Hj) as [s2 Hs2].
    rewrite Hs in Hs2. injection Hs2 as -> _.
    assert (Hnone : find (answers uuid4) (incoming ++ racing) = None).
    { apply find_none_iff. intros x Hx.
      destruct (answers uuid4 x) eqn:Ha; [| reflexivity].
      apply answers_spec in Ha. exfalso. by eapply Hno. }
    rewrite Hnone. reflexivity.
Qed.

(** C4.  A call of [send_msg] whose message was written and to which
    [response] is the first delivered message with the expected id,
    handled before the timer fires:
    the call returns [response["result"]] when the key is there;
    otherwise, when [response["error"]] is an error object with a code
    and a message, it raises [CommJsonRpcError] with that code and,
    when the object has [data] with a type and a message, the type of
    [data] and the two messages joined by a colon, and without [data]
    the type ['CommJsonRpcError'] and the message of the object; with
    neither key it raises [RuntimeError]. *)
Theorem send_msg_matching_response (method : string) (params : pyval)
    (timeout : option Q) (uuid4 : string)
    (before after racing late : list pydict) (response : pydict)
    (s : PipeJsonRpcSendAsync) (msg_json : string) :
  _lock_comm s = false →
  json_dumps (format_jsonrpc_msg method params false uuid4) = Ok msg_json →
  (∀ r, r ∈ before → r !! "id" ≠ Some (PStr uuid4)) →
  response !! "id" = Some (PStr uuid4) →
  let outcome :=
    fst <$> send_msg method params false timeout uuid4 None
              (before ++ response :: after) racing late s in
  (∀ v, response !! "result" = Some v → outcome = Some (Ok v))
  ∧ (∀ error code m,
       response !! "result" = None →
       response !! "error" = Some (PDict error) →
       error !! "code" = Some code → error !! "message" = Some m →
       (∀ data ty dm,
          error !! "data" = Some (PDict data) →
          data !! "type" = Some ty → data !! "message" = Some dm →
          outcome = Some (Raise (CommJsonRpcError
                      (PStr (py_str m ++ ": " ++ py_str dm)%string) code ty)))
       ∧ (error !! "data" = None →
          outcome = Some (Raise (CommJsonRpcError m code (PStr "CommJsonRpcError")))))
  ∧ (response !! "result" = None → response !! "error" = None →
     ∃ text, outcome = Some (Raise (RuntimeError text))).
Proof.
  intros Hl Hj Hbefore Hid outcome.
  assert (Hout : outcome = Some (handle_response
                   (format_jsonrpc_msg method params false uuid4) response)).
  { subst outcome.
    destruct (send_msg_request_outcome method params timeout uuid4
                (before ++ response :: after) racing late s msg_json Hl Hj)
      as [s' ->].
    simpl. rewrite <- app_assoc. simpl. rewrite find_first; [reflexivity | |].
    - intros y Hy. destruct (answers uuid4 y) eqn:Ha; [| reflexivity].
      apply answers_spec in Ha. exfalso. by eapply Hbefore.
    - by apply answers_spec. }
  rewrite Hout. unfold handle_response, dict_contains, dict_getitem.
  split; [| split].
  - intros v ->. reflexivity.
  - intros error code m -> -> Hc Hm. simpl. unfold dict_getitem, dict_contains.
    rewrite Hc. simpl. split.
    + intros data ty dm -> Hty Hdm. simpl. unfold dict_getitem.
      rewrite Hty, Hm, Hdm. reflexivity.
    + intros ->. simpl. rewrite Hm. reflexivity.
  - intros -> ->. eauto.
Qed.

(** C7.  A call of [send_msg] with [notification=True] that finds the
    lock free ends in its first run, before any suspension, whatever
    [json.dumps], the pipe and the peer do: the message has no id, no
    future is created, neither attribute is ever given a value, nothing
    is awaited, and the outcome does not depend on what the peer sends
    or fails to send.  When the message is written the call returns
    [None], and its effects are the acquisition of the lock, the write,
    the two assignments of [None] of the [finally] clause and the
    release. *)
Theorem send_msg_notification (method : string) (params : pyval)
    (timeout : option Q) (uuid4 : string) (send_err : option exn)
    (incoming racing late : list pydict) (s : PipeJsonRpcSendAsync) :
  _lock_comm s = false →
  ∃ r s',
    send_msg_begin method params true timeout uuid4 send_err s = (Completed r, s')
    ∧ send_msg method params true timeout uuid4 send_err incoming racing late s
      = Some (r, s')
    ∧ format_jsonrpc_msg method params true uuid4 !! "id" = None
    ∧ _expected_msg_id s' = None ∧ _fut_comm s' = None
    ∧ loop_futures s' = loop_futures s
    ∧ (∃ sent, trace s' = trace s ++ EvLockAcquire :: sent ++
                 [EvSetFutComm None; EvSetExpectedMsgId None; EvLockRelease]
               ∧ ∀ e, e ∈ sent → ∃ msg_json, e = EvConnSend msg_json)
    ∧ (∀ msg_json,
         send_err = None →
         json_dumps (format_jsonrpc_msg method params true uuid4) = Ok msg_json →
         r = Ok PNone
         ∧ trace s' = trace s ++ [EvLockAcquire; EvConnSend msg_json;
                                  EvSetFutComm None; EvSetExpectedMsgId None;
                                  EvLockRelease]).
Proof.
  intros Hl.
  destruct (send_msg_begin_notification_completes method params timeout uuid4
              send_err s Hl) as (r & s' & Hb & Hfut & Hf & He & _ & Ht).
  exists r, s'. unfold send_msg. rewrite Hb.
  split; [reflexivity |]. split; [reflexivity |].
  split; [destruct params; reflexivity |].
  split; [assumption |]. split; [assumption |]. split; [assumption |].
  split; [exact Ht |].
  intros msg_json -> Hj.
  rewrite (send_msg_begin_notification _ _ _ _ _ _ Hl Hj) in Hb.
  injection Hb as <- <-. split; reflexivity.
Qed.
End pipe_call_properties.

(** ** The pipe client under concurrent callers *)

Lemma count_awaiting_insert (l : list task) (i : nat) (old new : task) :
  l !! i = Some old →
  (length (filter awaiting (<[i := new]> l)) + (if is_awaiting old then 1 else 0)
   = length (filter awaiting l) + (if is_awaiting new then 1 else 0))%nat.
Proof.
  intros Hi.
  rewrite insert_take_drop by (eapply lookup_lt_Some; eassumption).
  rewrite <- (take_drop_middle l i old Hi) at 3.
  rewrite !filter_app, !filter_cons, !length_app. unfold awaiting.
  destruct (is_awaiting old), (is_awaiting new);
    repeat case_decide; try congruence; simpl; lia.
Qed.

Lemma count_awaiting_zero (l : list task) (i : nat) (t : task) :
  length (filter awaiting l) = 0%nat → l !! i = Some t → is_awaiting t = false.
Proof.
  intros Hc Hi. destruct (is_awaiting t) eqn:Ht; [| reflexivity].
  assert (Hin : t ∈ filter awaiting l).
  { apply list_elem_of_filter. split; [exact Ht |].
    eapply list_elem_of_lookup_2; eassumption. }
  destruct (filter awaiting l); [inversion Hin | discriminate].
Qed.

Section pipe_scheduler.
Context {rt : PyRuntime}.

Lemma lock_neutral_log tr rec :
  lock_discipline (tr ++ [EvLoggerError rec]) = lock_discipline tr.
Proof.
  rewrite lock_discipline_app. simpl.
  by destruct (lock_discipline tr) as [[[[] []] []]|].
Qed.

Lemma lock_neutral_set_result tr f r :
  lock_discipline (tr ++ [EvSetResult f r]) = lock_discipline tr.
Proof.
  rewrite lock_discipline_app. simpl.
  by destruct (lock_discipline tr) as [[[[] []] []]|].
Qed.

Lemma lock_neutral_cancel tr f :
  lock_discipline (tr ++ [EvCancel f]) = lock_discipline tr.
Proof.
  rewrite lock_discipline_app. simpl.
  by destruct (lock_discipline tr) as [[[[] []] []]|].
Qed.

Lemma deliver_preserves response s :
  let s' := deliver response s in
  _expected_msg_id s' = _expected_msg_id s ∧ _fut_comm s' = _fut_comm s
  ∧ _lock_comm s' = _lock_comm s
  ∧ length (loop_futures s') = length (loop_futures s)
  ∧ lock_discipline (trace s') = lock_discipline (trace s).
Proof.
  unfold deliver, _response_received. unfold_pipe. unfold_monad.
  destruct (_expected_msg_id s) as [u|] eqn:He; simpl;
    [| rewrite lock_neutral_log; repeat split; done].
  destruct (dict_contains response "id"); simpl;
    [| rewrite lock_neutral_log; repeat split; done].
  destruct (dict_getitem response "id"); simpl.
  2: { repeat split; done. }
  destruct (negb _); simpl; [rewrite lock_neutral_log; repeat split; done |].
  destruct (_fut_comm s) as [f|] eqn:Hf; simpl; [| repeat split; done].
  destruct (loop_futures s !! f) as [[| |]|]; simpl; try (repeat split; done).
  rewrite length_insert, lock_neutral_set_result. repeat split; done.
Qed.

Lemma cancel_and_wait_preserves f s :
  let s' := cancel_and_wait f s in
  _expected_msg_id s' = _expected_msg_id s ∧ _fut_comm s' = _fut_comm s
  ∧ _lock_comm s' = _lock_comm s
  ∧ length (loop_futures s') = length (loop_futures s)
  ∧ lock_discipline (trace s') = lock_discipline (trace s).
Proof.
  unfold cancel_and_wait. unfold_pipe. unfold_monad.
  destruct (loop_futures s !! f) as [[| |]|]; simpl; try (repeat split; done).
  rewrite length_insert, lock_neutral_cancel. repeat split; done.
Qed.

Lemma pipe_invariant_initial timeout : pipe_invariant (initial_system timeout).
Proof.
  split; [| split; [| split]]; simpl; auto.
  intros i msg f Hi. rewrite lookup_nil in Hi. discriminate.
Qed.

Lemma pipe_invariant_exec a sy : pipe_invariant sy → pipe_invariant (exec a sy).
Proof.
  intros Hinv. pose proof Hinv as (Hg & Hc & Hfree & Hw).
  destruct a as [args | i uuid4 send_err | response | i | i]; simpl.
  - (* a new call *)
    split; [| split; [| split]]; simpl; auto.
    + unfold pending_requests in *. simpl. rewrite filter_app, length_app. simpl.
      lia.
    + intros i msg f Hi. apply lookup_app_Some in Hi as [Hi | [_ Hi]].
      * eauto.
      * destruct (i - length (tasks sy))%nat; simpl in Hi; [discriminate |].
        rewrite lookup_nil in Hi. discriminate.
  - (* a task enters *)
    destruct (tasks sy !! i) as [[args| |]|] eqn:Hi; try exact Hinv.
    destruct (_lock_comm (client sy)) eqn:Hl.
    { rewrite send_msg_begin_blocked by assumption. exact Hinv. }
    pose proof (send_msg_begin_free (call_method args) (call_params args)
                  (call_notification args) (call_timeout args) uuid4 send_err
                  (client sy) Hl) as Hb.
    destruct (Hfree eq_refl) as [He0 Hf0].
    destruct (send_msg_begin _ _ _ _ _ _ _) as [[|msg f|r] c]; [done | |].
    + destruct Hb as (_ & -> & -> & Hfut & Hf & He & Hl' & msg_json & t & Ht).
      assert (Hw' : ∀ j msg f,
                <[i:=TAwaiting (format_jsonrpc_msg (call_method args)
                       (call_params args) false uuid4)
                     (length (loop_futures (client sy)))]> (tasks sy) !! j
                = Some (TAwaiting msg f) →
                _fut_comm c = Some f ∧ (f < length (loop_futures c))%nat
                ∧ ∃ u, msg !! "id" = Some (PStr u) ∧ _expected_msg_id c = Some u).
      { intros j msg f Hj. destruct (decide (j = i)) as [-> | Hne].
        - rewrite list_lookup_insert_eq in Hj
            by (eapply lookup_lt_Some; eassumption).
          injection Hj as <- <-. split; [assumption |]. split.
          + rewrite Hfut, length_app. simpl. lia.
          + exists uuid4. split; [| assumption].
            unfold format_jsonrpc_msg. simpl. apply lookup_insert_eq.
        - rewrite list_lookup_insert_ne in Hj by congruence.
          destruct (Hw _ _ _ Hj) as (Hcontra & _). congruence. }
      split; [| split; [| split]]; simpl.
      * rewrite Ht, lock_discipline_app, Hg, He0, Hf0, Hf, He, Hl'. reflexivity.
      * rewrite Hl'. unfold pending_requests in *. simpl in *.
        pose proof (count_awaiting_insert (tasks sy) i _
                      (TAwaiting (format_jsonrpc_msg (call_method args)
                         (call_params args) false uuid4)
                         (length (loop_futures (client sy)))) Hi) as Hk.
        simpl in Hk. rewrite ?Hl in Hc. unfold awaiting in *. lia.
      * rewrite Hl'. discriminate.
      * intros j msg f Hj. split; [assumption |]. eapply Hw'; eassumption.
    + destruct Hb as (Hfut & Hf & He & Hl' & evs & Ht & Hevs).
      split; [| split; [| split]]; simpl.
      * rewrite Ht, lock_discipline_app, Hg, He0, Hf0, Hf, He, Hl'.
        destruct Hevs as [-> | [msg_json ->]]; reflexivity.
      * rewrite Hl'. unfold pending_requests in *. simpl in *.
        pose proof (count_awaiting_insert (tasks sy) i _ (TFinished r) Hi) as Hk.
        simpl in Hk. rewrite ?Hl in Hc. unfold awaiting in *. lia.
      * auto.
      * intros j msg f Hj. exfalso. destruct (decide (j = i)) as [-> | Hne].
        -- rewrite list_lookup_insert_eq in Hj
             by (eapply lookup_lt_Some; eassumption). discriminate.
        -- rewrite list_lookup_insert_ne in Hj by congruence.
           destruct (Hw _ _ _ Hj) as (Hcontra & _). congruence.
  - (* a message is delivered *)
    destruct (deliver_preserves response (client sy)) as (He & Hf & Hl & Hn & Hgd).
    split; [| split; [| split]]; simpl.
    + rewrite Hgd, He, Hf, Hl. assumption.
    + rewrite Hl. assumption.
    + rewrite Hl, He, Hf. assumption.
    + intros i msg f Hi. rewrite Hl, He, Hf, Hn. eapply Hw; eassumption.
  - (* [wait_for] cancels the future *)
    destruct (tasks sy !! i) as [[|msg f|]|] eqn:Hi; try exact Hinv.
    destruct (cancel_and_wait_preserves f (client sy)) as (He & Hf & Hl & Hn & Hgd).
    split; [| split; [| split]]; simpl.
    + rewrite Hgd, He, Hf, Hl. assumption.
    + rewrite Hl. assumption.
    + rewrite Hl, He, Hf. assumption.
    + intros j msg' f' Hj. rewrite Hl, He, Hf, Hn. eapply Hw; eassumption.
  - (* a waiting task is resumed *)
    destruct (tasks sy !! i) as [[|msg f|]|] eqn:Hi; try exact Hinv.
    destruct (Hw _ _ _ Hi) as (Hl & Hf & Hlt & u & Hu & He).
    assert (Hres : pipe_invariant
              (let (r, c) := send_msg_resume msg f (client sy) in
               {| client := c; tasks := <[i:=TFinished r]> (tasks sy) |})).
    { destruct (send_msg_resume_unwinds msg f (client sy))
        as (r & c & -> & Hn & Hf' & He' & Hl' & evs & Ht & Hevs).
      assert (Hk : length (filter awaiting (<[i:=TFinished r]> (tasks sy))) = 0%nat).
      { pose proof (count_awaiting_insert (tasks sy) i _ (TFinished r) Hi) as Hk.
        simpl in Hk. unfold pending_requests in Hc. rewrite ?Hl in Hc.
        unfold awaiting in *. lia. }
      split; [| split; [| split]]; simpl.
      - rewrite Ht, lock_discipline_app, Hg, Hl, Hf, He, Hl', Hf', He'.
        destruct Hevs as [-> | ->]; reflexivity.
      - rewrite Hl'. exact Hk.
      - auto.
      - intros j msg' f' Hj.
        pose proof (count_awaiting_zero _ _ _ Hk Hj). discriminate. }
    destruct (loop_futures (client sy) !! f) as [[| |]|];
      [exact Hinv | exact Hres | exact Hres | exact Hres].
Qed.

Lemma pipe_invariant_run schedule : ∀ sy,
  pipe_invariant sy → pipe_invariant (run schedule sy).
Proof.
  induction schedule as [|a schedule IH]; intros sy Hinv; simpl; [assumption |].
  apply IH, pipe_invariant_exec, Hinv.
Qed.
End pipe_scheduler.

Section pipe_single_in_flight.
Context {rt : PyRuntime}.

(** C1.  In every state that the loop reaches from a new instance,
    under any number of concurrent callers of [send_msg] and any
    arrival of messages and timeouts: at most one call is waiting for
    a response; a waiting call holds the lock, the future it waits on
    is the one in [_fut_comm] and the id of its message is
    [_expected_msg_id]; an attribute that is not [None] means that the
    lock is held; and along the whole history every assignment of a
    value to either attribute was made with the lock held and every
    release of the lock found both attributes [None]. *)
Theorem single_pending_request (timeout : Q) (schedule : list action) :
  let sy := run schedule (initial_system timeout) in
  let c := client sy in
  (length (pending_requests sy) ≤ 1)%nat
  ∧ (∀ t, t ∈ pending_requests sy →
       ∃ msg f u, t = TAwaiting msg f
                  ∧ _lock_comm c = true ∧ _fut_comm c = Some f
                  ∧ msg !! "id" = Some (PStr u) ∧ _expected_msg_id c = Some u)
  ∧ (_expected_msg_id c ≠ None ∨ _fut_comm c ≠ None → _lock_comm c = true)
  ∧ lock_discipline (trace c)
    = Some (_lock_comm c, is_set (_expected_msg_id c), is_set (_fut_comm c)).
Proof.
  intros sy c.
  destruct (pipe_invariant_run schedule _ (pipe_invariant_initial timeout))
    as (Hg & Hc & Hfree & Hw).
  fold sy in Hg, Hc, Hfree, Hw. fold c in Hg, Hc, Hfree, Hw.
  split; [| split; [| split]].
  - rewrite Hc. destruct (_lock_comm c); lia.
  - intros t Ht. unfold pending_requests in Ht.
    apply list_elem_of_filter in Ht as [Haw Hin].
    apply list_elem_of_lookup in Hin as [i Hi].
    destruct t as [a | msg f | r]; try discriminate.
    destruct (Hw _ _ _ Hi) as (Hl & Hf & _ & u & Hu & He).
    exists msg, f, u. auto.
  - intros Hset. destruct (_lock_comm c) eqn:Hl; [reflexivity |].
    destruct (Hfree eq_refl) as [He Hf]. destruct Hset; congruence.
  - exact Hg.
Qed.
End pipe_single_in_flight.

(** ** The ZMQ client *)

Ltac unfold_zmq :=
  unfold send_message, _zmq_communicate, _zmq_send, _zmq_receive,
    _zmq_socket_restart, _zmq_socket_open, socket_close, update_socket,
    the_socket, set_ctx_sockets, set_zmq_socket, set_lock_zmq.

Section zmq.
Context {rt : PyRuntime}.

(** An exchange that fails leaves the socket open and in place. *)
Lemma zmq_communicate_fails z net msg old sock ex :
  _zmq_socket z = Some old → ctx_sockets z !! old = Some sock →
  closed sock = false → exchange_error net = Some ex →
  ∃ z1 sock1, _zmq_communicate net msg z = (Raise ex, z1)
    ∧ same_config z z1 ∧ _lock_zmq z1 = _lock_zmq z
    ∧ _zmq_socket z1 = Some old ∧ ctx_sockets z1 !! old = Some sock1
    ∧ length (ctx_sockets z1) = length (ctx_sockets z).
Proof.
  intros Hs Hold Hopen Hex. unfold exchange_error in Hex.
  unfold_zmq. unfold_monad. rewrite Hs, Hold. simpl. rewrite Hopen.
  destruct (send_json_raises net) as [e|].
  - injection Hex as ->. exists z, sock. repeat split; assumption.
  - simpl. rewrite Hs. simpl. rewrite list_lookup_alter_eq, Hold. simpl.
    rewrite Hopen.
    destruct (recv_json_gives net) as [v|e]; [discriminate |].
    injection Hex as ->. eexists _, _. split; [reflexivity |]. simpl.
    rewrite length_alter, list_lookup_alter_eq, Hold. simpl.
    repeat split; reflexivity.
Qed.

(** An exchange that succeeds returns what [recv_json] gives. *)
Lemma zmq_communicate_succeeds z net msg old sock :
  _zmq_socket z = Some old → ctx_sockets z !! old = Some sock →
  closed sock = false → exchange_error net = None →
  ∃ z1 sock1 v, recv_json_gives net = Ok v
    ∧ _zmq_communicate net msg z = (Ok v, z1)
    ∧ same_config z z1 ∧ _lock_zmq z1 = _lock_zmq z
    ∧ _zmq_socket z1 = Some old ∧ ctx_sockets z1 !! old = Some sock1
    ∧ closed sock1 = false ∧ sent sock1 = sent sock ++ [msg]
    ∧ length (ctx_sockets z1) = length (ctx_sockets z).
Proof.
  intros Hs Hold Hopen Hex. unfold exchange_error in Hex.
  unfold_zmq. unfold_monad. rewrite Hs, Hold. simpl. rewrite Hopen.
  destruct (send_json_raises net) as [e|]; [discriminate |].
  simpl. rewrite Hs. simpl. rewrite list_lookup_alter_eq, Hold. simpl.
  rewrite Hopen.
  destruct (recv_json_gives net) as [v|e]; [| discriminate].
  eexists _, _, v. split; [reflexivity |]. split; [reflexivity |]. simpl.
  rewrite length_alter, list_lookup_alter_eq, Hold. simpl.
  repeat split; assumption.
Qed.

(** [_zmq_socket_restart] on an address for which [connect] returns a
    false value. *)
Lemma zmq_socket_restart_ok z old sock :
  _zmq_socket z = Some old → ctx_sockets z !! old = Some sock →
  zmq_connect (_zmq_server_address z) = Ok false →
  ∃ z' sock', _zmq_socket_restart z = (Ok tt, z')
    ∧ same_config z z' ∧ _lock_zmq z' = _lock_zmq z
    ∧ ctx_sockets z' !! old = Some sock' ∧ closed sock' = true
    ∧ _zmq_socket z' = Some (length (ctx_sockets z))
    ∧ ctx_sockets z' !! length (ctx_sockets z) = Some (fresh_socket z)
    ∧ length (ctx_sockets z') = S (length (ctx_sockets z)).
Proof.
  intros Hs Hold Hconn.
  assert (Hlt : (old < length (ctx_sockets z))%nat)
    by (eapply lookup_lt_Some; eassumption).
  unfold_zmq. unfold_monad. rewrite Hs, Hold. simpl. rewrite Hconn. simpl.
  eexists _, _. split; [reflexivity |]. simpl.
  rewrite !length_alter, length_app, length_alter. simpl.
  rewrite list_lookup_alter_ne by lia.
  rewrite lookup_app_l by (rewrite length_alter; lia).
  rewrite list_lookup_alter_eq, Hold. simpl.
  split; [repeat split |]. split; [reflexivity |].
  split; [reflexivity |]. split; [reflexivity |]. split; [reflexivity |].
  split; [| lia].
  rewrite list_lookup_alter_eq.
  rewrite lookup_app_r by (rewrite length_alter; lia).
  rewrite length_alter, Nat.sub_diag. reflexivity.
Qed.

(** [send_message] when the exchange fails. *)
Lemma send_message_failure z method params raise_exceptions net old sock ex :
  _zmq_socket z = Some old → ctx_sockets z !! old = Some sock →
  closed sock = false →
  zmq_connect (_zmq_server_address z) = Ok false →
  exchange_error net = Some ex →
  let errmsg := ("ZMQ communication error: " ++ exn_str ex)%string in
  let new := length (ctx_sockets z) in
  ∃ z' sock', send_message method params raise_exceptions net z
        = (if _raise_timeout_exceptions z
           then Raise (CommTimeoutError errmsg)
           else Ok (failure_value errmsg), z')
    ∧ same_config z z' ∧ _lock_zmq z' = false
    ∧ ctx_sockets z' !! old = Some sock' ∧ closed sock' = true
    ∧ _zmq_socket z' = Some new
    ∧ ctx_sockets z' !! new = Some (fresh_socket z)
    ∧ length (ctx_sockets z') = S new.
Proof.
  intros Hs Hold Hopen Hconn Hex errmsg new.
  unfold send_message, set_lock_zmq. unfold_monad. simpl.
  match goal with |- context [_zmq_communicate net ?m ?zl] =>
    destruct (zmq_communicate_fails zl net m old sock ex Hs Hold Hopen Hex)
      as (z1 & sock1 & -> & (Ha1 & Hr1 & Htr1 & Hts1) & Hl1 & Hs1 & Hold1 & Hn1)
  end.
  simpl in Ha1, Hr1, Htr1, Hts1, Hl1, Hn1.
  destruct (zmq_socket_restart_ok z1 old sock1 Hs1 Hold1)
    as (z2 & sock2 & -> & (Ha2 & Hr2 & Htr2 & Hts2) & Hl2 & Hold2 & Hc2 & Hs2
        & Hnew2 & Hn2).
  { rewrite Ha1. exact Hconn. }
  rewrite Hr2, Hr1.
  assert (Hfresh : fresh_socket z1 = fresh_socket z).
  { unfold fresh_socket. rewrite Ha1, Htr1, Hts1. reflexivity. }
  rewrite Hn1 in Hs2, Hnew2, Hn2. rewrite Hfresh in Hnew2. subst new.
  destruct (_raise_timeout_exceptions z) eqn:Hflag; simpl.
  all: eexists _, sock2; (split; [reflexivity |]); simpl.
  all: unfold same_config; simpl.
  all: repeat split; congruence.
Qed.

(** [send_message] when the exchange succeeds. *)
Lemma send_message_success z method params raise_exceptions net old sock :
  _zmq_socket z = Some old → ctx_sockets z !! old = Some sock →
  closed sock = false → exchange_error net = None →
  ∃ z' sock' v, recv_json_gives net = Ok v
    ∧ send_message method params raise_exceptions net z = (Ok v, z')
    ∧ same_config z z' ∧ _lock_zmq z' = false
    ∧ _zmq_socket z' = Some old
    ∧ ctx_sockets z' !! old = Some sock' ∧ closed sock' = false.
Proof.
  intros Hs Hold Hopen Hex.
  unfold send_message, set_lock_zmq. unfold_monad. simpl.
  match goal with |- context [_zmq_communicate net ?m ?zl] =>
    destruct (zmq_communicate_succeeds zl net m old sock Hs Hold Hopen Hex)
      as (z1 & sock1 & v & Hv & -> & (Ha1 & Hr1 & Htr1 & Hts1) & Hl1 & Hs1
          & Hold1 & Hc1 & _ & Hn1)
  end.
  simpl in Ha1, Hr1, Htr1, Hts1.
  eexists _, sock1, v. split; [assumption |]. split; [reflexivity |].
  unfold same_config. simpl. repeat split; assumption.
Qed.

(** [__init__] returns only when [connect] returns a false value. *)
Lemma ZMQCommSendAsync_init_ok address timeout_recv timeout_send flag z :
  ZMQCommSendAsync_init address timeout_recv timeout_send flag = (Ok tt, z) →
  zmq_connect (_zmq_server_address z) = Ok false
  ∧ _raise_timeout_exceptions z = flag
  ∧ _zmq_socket z = Some 0%nat
  ∧ ctx_sockets z = [fresh_socket z]
  ∧ _lock_zmq z = false.
Proof.
  unfold ZMQCommSendAsync_init. unfold_zmq. unfold_monad. simpl.
  destruct (zmq_connect _) as [[|]|e] eqn:Hconn; simpl; try discriminate.
  intros [= <-]. simpl. auto.
Qed.

Lemma ZMQCommSendAsync_init_flag address timeout_recv timeout_send flag :
  _raise_timeout_exceptions
    (snd (ZMQCommSendAsync_init address timeout_recv timeout_send flag)) = flag.
Proof.
  unfold ZMQCommSendAsync_init. unfold_zmq. unfold_monad. simpl.
  destruct (zmq_connect _) as [[|]|e]; reflexivity.
Qed.

Lemma ZMQCommSendAsync_init_ready address timeout_recv timeout_send flag z :
  ZMQCommSendAsync_init address timeout_recv timeout_send flag = (Ok tt, z) →
  zmq_ready z.
Proof.
  intros Hinit.
  destruct (ZMQCommSendAsync_init_ok _ _ _ _ _ Hinit) as (Hconn & _ & Hs & Hctx & Hl).
  split; [assumption |]. split; [assumption |].
  exists 0%nat, (fresh_socket z). rewrite Hctx. auto.
Qed.

Lemma send_message_ready z method params raise_exceptions net :
  zmq_ready z →
  zmq_ready (snd (send_message method params raise_exceptions net z)).
Proof.
  intros (Hconn & Hl & old & sock & Hs & Hold & Hopen).
  destruct (exchange_error net) as [ex|] eqn:Hex.
  - destruct (send_message_failure z method params raise_exceptions net old sock ex
                Hs Hold Hopen Hconn Hex)
      as (z' & sock' & -> & (Ha & _) & Hl' & _ & _ & Hs' & Hnew & _).
    simpl. split; [congruence |]. split; [assumption |].
    exists (length (ctx_sockets z)), (fresh_socket z). auto.
  - destruct (send_message_success z method params raise_exceptions net old sock
                Hs Hold Hopen Hex)
      as (z' & sock' & v & _ & -> & (Ha & _) & Hl' & Hs' & Hold' & Hopen').
    simpl. split; [congruence |]. split; [assumption |].
    exists old, sock'. auto.
Qed.
End zmq.

Section zmq_properties.
Context {rt : PyRuntime}.

Lemma socket_close_ok z r sock :
  _zmq_socket z = Some r → ctx_sockets z !! r = Some sock →
  ∃ z', socket_close z = (Ok tt, z')
        ∧ _raise_timeout_exceptions z' = _raise_timeout_exceptions z.
Proof.
  intros Hs Hr. unfold_zmq. unfold_monad. rewrite Hs, Hr. simpl.
  eexists. split; reflexivity.
Qed.

(** C6.  A call of [send_message] on an instance between two calls,
    during which [send_json] or [recv_json] raises: when the call ends
    the socket it used is closed and [_zmq_socket] is a new open socket
    with the timeouts of the instance, connected to the same address;
    the lock is free; and the call raises [CommTimeoutError] when the
    instance was built with [raise_timeout_exceptions=True] and
    otherwise returns [{'success': False, 'msg': errmsg}], where
    [errmsg] is never empty. *)
Theorem send_message_failure_restarts (z : ZMQCommSendAsync)
    (method : string) (params : pyval) (raise_exceptions : bool)
    (net : exchange) (old : nat) (ex : exn) :
  zmq_ready z → _zmq_socket z = Some old →
  exchange_error net = Some ex →
  let errmsg := ("ZMQ communication error: " ++ exn_str ex)%string in
  let r := fst (send_message method params raise_exceptions net z) in
  let z' := snd (send_message method params raise_exceptions net z) in
  (∃ sock', ctx_sockets z' !! old = Some sock' ∧ closed sock' = true)
  ∧ (∃ new, new ≠ old ∧ _zmq_socket z' = Some new
            ∧ ctx_sockets z' !! new
              = Some {| connected_to := Some (_zmq_server_address z);
                        RCVTIMEO := _timeout_receive z;
                        SNDTIMEO := _timeout_send z;
                        LINGER := Some 100%Z; closed := false; sent := [] |})
  ∧ _zmq_server_address z' = _zmq_server_address z
  ∧ _lock_zmq z' = false
  ∧ errmsg ≠ ""
  ∧ r = if _raise_timeout_exceptions z
        then Raise (CommTimeoutError errmsg)
        else Ok (PDict (<["msg" := PStr errmsg]> (<["success" := PBool false]> ∅))).
Proof.
  intros (Hconn & _ & old' & sock & Hs & Hold & Hopen) Hs' Hex errmsg r z'.
  assert (old' = old) as -> by congruence.
  destruct (send_message_failure z method params raise_exceptions net old sock ex
              Hs Hold Hopen Hconn Hex)
    as (z2 & sock2 & Heq & (Ha & _) & Hl & Hold2 & Hc2 & Hs2 & Hnew & _).
  subst r z'. rewrite Heq. simpl.
  split; [eauto |]. split.
  - exists (length (ctx_sockets z)). split; [| split; assumption].
    apply lookup_lt_Some in Hold. lia.
  - repeat split; try assumption. discriminate.
Qed.

(** C9.  The keyword argument [raise_exceptions] of [send_message]
    changes nothing: two calls that differ only in it end alike, and
    when the exchange fails the call raises exactly when the instance
    was built with [raise_timeout_exceptions=True]. *)
Theorem send_message_ignores_raise_exceptions (z : ZMQCommSendAsync)
    (method : string) (params : pyval) (net : exchange) :
  (∀ raise_exceptions raise_exceptions',
     send_message method params raise_exceptions net z
     = send_message method params raise_exceptions' net z)
  ∧ (∀ raise_exceptions ex,
       zmq_ready z → exchange_error net = Some ex →
       is_ok (fst (send_message method params raise_exceptions net z))
       = negb (_raise_timeout_exceptions z)).
Proof.
  split; [reflexivity |].
  intros raise_exceptions ex (Hconn & _ & old & sock & Hs & Hold & Hopen) Hex.
  destruct (send_message_failure z method params raise_exceptions net old sock ex
              Hs Hold Hopen Hconn Hex) as (z2 & sock2 & -> & _).
  destruct (_raise_timeout_exceptions z); reflexivity.
Qed.

Lemma send_request_flag method params address net :
  _raise_timeout_exceptions (snd (send_request method params address net)) = false.
Proof.
  unfold send_request.
  pose proof (ZMQCommSendAsync_init_flag address 2000 500 false) as Hflag.
  destruct (ZMQCommSendAsync_init address 2000 500 false) as [[[]|e] z] eqn:Hinit;
    simpl in Hflag; [| exact Hflag].
  destruct (ZMQCommSendAsync_init_ok _ _ _ _ _ Hinit)
    as (Hconn & _ & Hs & Hctx & Hl).
  assert (Hold : ctx_sockets z !! 0%nat = Some (fresh_socket z))
    by (rewrite Hctx; reflexivity).
  unfold_monad.
  destruct (exchange_error net) as [ex|] eqn:Hex.
  - destruct (send_message_failure z method params false net 0 _ ex
                Hs Hold eq_refl Hconn Hex)
      as (z2 & sock2 & -> & (_ & Hr & _) & _ & _ & _ & Hs2 & Hnew & _).
    rewrite Hflag.
    destruct (socket_close_ok z2 _ _ Hs2 Hnew) as (z3 & -> & Hr3). simpl.
    congruence.
  - destruct (send_message_success z method params false net 0 _
                Hs Hold eq_refl Hex)
      as (z2 & sock2 & v & _ & -> & (_ & Hr & _) & _ & Hs2 & Hold2 & _).
    destruct (socket_close_ok z2 _ _ Hs2 Hold2) as (z3 & -> & Hr3). simpl.
    congruence.
Qed.

(** C10.  [zmq_single_request] builds its client with
    [raise_timeout_exceptions=False].  Whenever [send_message] returns
    a value, [zmq_single_request] returns that value with an empty
    error text; this includes the value
    [{'success': False, 'msg': ...}] that [send_message] returns for a
    failed exchange.  The pair of [None] and a non-empty text is
    returned only when an exception leaves the event-loop run. *)
Theorem zmq_single_request_outcomes (method : string) (params : pyval)
    (address : option string) (net : exchange) :
  _raise_timeout_exceptions (snd (send_request method params address net)) = false
  ∧ (∀ z v z',
       ZMQCommSendAsync_init address 2000 500 false = (Ok tt, z) →
       send_message method params false net z = (Ok v, z') →
       zmq_single_request method params address net = Ok (v, ""%string))
  ∧ (∀ z ex,
       ZMQCommSendAsync_init address 2000 500 false = (Ok tt, z) →
       exchange_error net = Some ex →
       zmq_single_request method params address net
       = Ok (PDict (<["msg" := PStr ("ZMQ communication error: " ++ exn_str ex)%string]>
                      (<["success" := PBool false]> ∅)), ""%string))
  ∧ (∀ text,
       zmq_single_request method params address net = Ok (PNone, text) →
       text ≠ ""%string →
       ∃ ex, fst (send_request method params address net) = Raise ex
             ∧ text = exn_str ex).
Proof.
  split; [apply send_request_flag |].
  assert (Hret : ∀ z v z',
            ZMQCommSendAsync_init address 2000 500 false = (Ok tt, z) →
            send_message method params false net z = (Ok v, z') →
            zmq_single_request method params address net = Ok (v, ""%string)).
  { intros z v z' Hinit Hsend.
    unfold zmq_single_request, send_request. rewrite Hinit.
    destruct (ZMQCommSendAsync_init_ok _ _ _ _ _ Hinit)
      as (Hconn & Hflag & Hs & Hctx & Hl).
    assert (Hold : ctx_sockets z !! 0%nat = Some (fresh_socket z))
      by (rewrite Hctx; reflexivity).
    assert (Hvalid : ∃ r sock, _zmq_socket z' = Some r
                               ∧ ctx_sockets z' !! r = Some sock).
    { destruct (exchange_error net) as [ex|] eqn:Hex.
      - destruct (send_message_failure z method params false net 0 _ ex
                    Hs Hold eq_refl Hconn Hex)
          as (z2 & sock2 & Heq & _ & _ & _ & _ & Hs2 & Hnew & _).
        rewrite Hsend in Heq. assert (z' = z2) as -> by congruence. eauto.
      - destruct (send_message_success z method params false net 0 _
                    Hs Hold eq_refl Hex)
          as (z2 & sock2 & v2 & _ & Heq & _ & _ & Hs2 & Hold2 & _).
        rewrite Hsend in Heq. assert (z' = z2) as -> by congruence. eauto. }
    destruct Hvalid as (r & sock & Hs' & Hr').
    destruct (socket_close_ok z' r sock Hs' Hr') as (z3 & Hclose & _).
    unfold_monad. rewrite Hsend, Hclose. reflexivity. }
  split; [exact Hret |]. split.
  - intros z ex Hinit Hex.
    destruct (ZMQCommSendAsync_init_ok _ _ _ _ _ Hinit)
      as (Hconn & Hflag & Hs & Hctx & Hl).
    assert (Hold : ctx_sockets z !! 0%nat = Some (fresh_socket z))
      by (rewrite Hctx; reflexivity).
    destruct (send_message_failure z method params false net 0 _ ex
                Hs Hold eq_refl Hconn Hex) as (z2 & sock2 & Heq & _).
    rewrite Hflag in Heq. apply (Hret z _ z2 Hinit Heq).
  - intros text Hres Hne. unfold zmq_single_request in Hres.
    destruct (fst (send_request method params address net)) as [v|ex].
    + injection Hres as -> <-. contradiction.
    + injection Hres as <-. eauto.
Qed.
End zmq_properties.

(** * The properties on concrete inputs *)

#[local] Existing Instance demo_runtime.

Example demo_waiting_state :
  _expected_msg_id demo_waiting = Some "u1"%string
  ∧ _fut_comm demo_waiting = Some 0%nat
  ∧ loop_futures demo_waiting = [FutPending]
  ∧ _lock_comm demo_waiting = true.
Proof. repeat split. Qed.

(** Two callers: the second finds the lock held and enters only after
    the first has been answered; it then times out. *)
Example two_callers_in_turn :
  tasks (run [ACall (demo_call false); ACall (demo_call false);
              AEnter 0 "u1" None; AEnter 1 "u2" None;
              ADeliver demo_result; AResume 0;
              AEnter 1 "u2" None; ADeliver demo_result;
              ATimeout 1; AResume 1]
           (initial_system (1 # 2)))
  = [TFinished (Ok (PInt 7));
     TFinished (Raise (CommTimeoutError
       (timeout_text (format_jsonrpc_msg "echo" PNone false "u2"))))].
Proof. vm_compute. reflexivity. Qed.

Example second_caller_waits_for_the_lock :
  tasks (run [ACall (demo_call false); ACall (demo_call false);
              AEnter 0 "u1" None; AEnter 1 "u2" None]
           (initial_system (1 # 2)))
  = [TAwaiting (format_jsonrpc_msg "echo" PNone false "u1") 0;
     TCall (demo_call false)].
Proof. vm_compute. reflexivity. Qed.

(** A message with the expected id that is handled while [wait_for]
    waits for the cancellation of the future finds the future
    cancelled: [set_result] raises in the delivering task, and the call
    times out all the same. *)
Example late_answer_finds_future_cancelled :
  fst (_response_received demo_result (cancel_and_wait 0 demo_waiting))
  = Raise InvalidStateError
  ∧ fst <$> send_msg "echo" PNone false None "u1" None [] [] [demo_result] demo_idle
    = Some (Raise (CommTimeoutError
                     (timeout_text (format_jsonrpc_msg "echo" PNone false "u1")))).
Proof. split; vm_compute; reflexivity. Qed.

(** The same under the scheduler: the answer is handled after the timer
    has fired.  Handled before the call is resumed it completes the
    call; handled after [wait_for] has cancelled the future it is
    lost. *)
Example answer_races_with_resumption :
  tasks (run [ACall (demo_call false); AEnter 0 "u1" None;
              ADeliver demo_result; ATimeout 0; AResume 0]
           (initial_system (1 # 2)))
  = [TFinished (Ok (PInt 7))]
  ∧ tasks (run [ACall (demo_call false); AEnter 0 "u1" None;
                ATimeout 0; ADeliver demo_result; AResume 0]
             (initial_system (1 # 2)))
    = [TFinished (Raise (CommTimeoutError
         (timeout_text (format_jsonrpc_msg "echo" PNone false "u1"))))].
Proof. split; vm_compute; reflexivity. Qed.

(** An error object whose [data] has no [type]: the subscription raises
    [KeyError] before the [CommJsonRpcError] is built. *)
Example error_data_without_type :
  handle_response ∅
    (<["id" := PStr "u1"]> (<["error" := PDict (
       <["code" := PInt (-32000)]> (<["message" := PStr "Server error"]>
         (<["data" := PDict (<["detail" := PStr "x"]> ∅)]> ∅)))]> ∅))
  = Raise (KeyError "type").
Proof. vm_compute. reflexivity. Qed.

Lemma response_received_correlation_witness :
  _response_received demo_result demo_idle
  = (Ok tt, snd (logger_error (LogUnsolicited demo_result) demo_idle))
  ∧ _response_received demo_no_id demo_waiting
    = (Ok tt, snd (logger_error (LogMissingId demo_no_id) demo_waiting))
  ∧ _response_received demo_stray demo_waiting
    = (Ok tt, snd (logger_error (LogIncorrectId (PStr "zz") "u1" demo_stray)
                     demo_waiting))
  ∧ (loop_futures (deliver demo_result demo_waiting) !! 0%nat
     = Some (FutResult demo_result) ↔ id_matches demo_waiting demo_result).
Proof.
  split; [| split; [| split]].
  - apply (response_received_correlation demo_idle demo_result). reflexivity.
  - apply (response_received_correlation demo_waiting demo_no_id) with "u1"%string;
      reflexivity.
  - apply (response_received_correlation demo_waiting demo_stray);
      [reflexivity | reflexivity | discriminate].
  - apply (response_received_correlation demo_waiting demo_result); reflexivity.
Defined.

(** C3.  A request to which no message with the expected id is handled
    before the timer of [wait_for] fires, and one is handled after the
    timer has fired and before the call is resumed: the call returns
    the result of that message instead of raising [CommTimeoutError],
    and the message that arrived after the timeout is put into the
    future, not logged as unsolicited and dropped. *)
Theorem response_after_expiry_completes_call :
  forallb (fun response => negb (answers "u1" response)) [demo_stray] = true
  ∧ fst <$> send_msg "echo" PNone false None "u1" None
              [demo_stray] [demo_result] [] demo_idle
    = Some (Ok (PInt 7))
  ∧ fst <$> send_msg "echo" PNone false None "u1" None
              [demo_stray] [demo_result] [] demo_idle
    ≠ Some (Raise (CommTimeoutError
                     (timeout_text (format_jsonrpc_msg "echo" PNone false "u1"))))
  ∧ (trace <$> (snd <$> send_msg "echo" PNone false None "u1" None
                          [demo_stray] [demo_result] [] demo_idle))
    = Some [EvLockAcquire; EvConnSend "<json>"; EvSetExpectedMsgId (Some "u1"%string);
            EvCreateFuture 0; EvSetFutComm (Some 0%nat); EvWaitFor 0 (1 # 2);
            EvLoggerError (LogIncorrectId (PStr "zz") "u1" demo_stray);
            EvSetResult 0 demo_result;
            EvSetFutComm None; EvSetExpectedMsgId None; EvLockRelease].
Proof.
  split; [| split; [| split]].
  - reflexivity.
  - vm_compute. reflexivity.
  - vm_compute. discriminate.
  - vm_compute. reflexivity.
Qed.

Lemma send_msg_timeout_and_cleanup_witness :
  _lock_comm demo_idle = false
  ∧ ∃ r s',
      send_msg "echo" PNone false None "u1" None
        [demo_stray] [demo_no_id] [demo_result] demo_idle
      = Some (r, s')
      ∧ _expected_msg_id s' = None ∧ _fut_comm s' = None ∧ _lock_comm s' = false
      ∧ r = Raise (CommTimeoutError
                     (timeout_text (format_jsonrpc_msg "echo" PNone false "u1"))).
Proof.
  split; [reflexivity |].
  destruct (send_msg_timeout_and_cleanup "echo" PNone false None "u1" None
              [demo_stray] [demo_no_id] [demo_result] demo_idle eq_refl)
    as (r & s' & Hs & He & Hf & Hl & _ & _ & Ht).
  exists r, s'. repeat split; try assumption.
  apply Ht; try reflexivity.
  intros response Hin.
  repeat (apply elem_of_cons in Hin as [-> | Hin]; [discriminate |]).
  inversion Hin.
Defined.

Lemma send_msg_matching_response_witness :
  fst <$> send_msg "echo" PNone false None "u1" None
            ([demo_stray] ++ demo_result :: [demo_result]) [] [] demo_idle
  = Some (Ok (PInt 7))
  ∧ fst <$> send_msg "echo" PNone false None "u1" None
              ([] ++ demo_error_data :: []) [] [] demo_idle
    = Some (Raise (CommJsonRpcError (PStr "Server error: bad value")
                     (PInt (-32000)) (PStr "ValueError")))
  ∧ fst <$> send_msg "echo" PNone false None "u1" None
              ([] ++ demo_error_plain :: []) [] [] demo_idle
    = Some (Raise (CommJsonRpcError (PStr "Method not found")
                     (PInt (-32601)) (PStr "CommJsonRpcError")))
  ∧ ∃ text, fst <$> send_msg "echo" PNone false None "u1" None
                      ([] ++ demo_neither :: []) [] [] demo_idle
            = Some (Raise (RuntimeError text)).
Proof.
  assert (Hnone : ∀ r : pydict, r ∈ @nil pydict → r !! "id"%string ≠ Some (PStr "u1")).
  { intros r Hr. inversion Hr. }
  split; [| split; [| split]].
  - apply (send_msg_matching_response "echo" PNone None "u1"
             [demo_stray] [demo_result] [] [] demo_result demo_idle "<json>");
      try reflexivity.
    intros r Hr. apply list_elem_of_singleton in Hr. subst r. discriminate.
  - destruct (send_msg_matching_response (rt := demo_runtime) "echo" PNone None "u1"
                [] [] [] [] demo_error_data demo_idle "<json>"
                eq_refl eq_refl Hnone eq_refl) as (_ & Herr & _).
    destruct (Herr demo_error_object (PInt (-32000)) (PStr "Server error")
                eq_refl eq_refl eq_refl eq_refl) as [Hdata _].
    exact (Hdata demo_data (PStr "ValueError") (PStr "bad value")
             eq_refl eq_refl eq_refl).
  - destruct (send_msg_matching_response (rt := demo_runtime) "echo" PNone None "u1"
                [] [] [] [] demo_error_plain demo_idle "<json>"
                eq_refl eq_refl Hnone eq_refl) as (_ & Herr & _).
    destruct (Herr demo_error_object_plain (PInt (-32601)) (PStr "Method not found")
                eq_refl eq_refl eq_refl eq_refl) as [_ Hplain].
    exact (Hplain eq_refl).
  - destruct (send_msg_matching_response (rt := demo_runtime) "echo" PNone None "u1"
                [] [] [] [] demo_neither demo_idle "<json>"
                eq_refl eq_refl Hnone eq_refl) as (_ & _ & Hneither).
    exact (Hneither eq_refl eq_refl).
Defined.

Lemma send_msg_notification_witness :
  _lock_comm demo_idle = false
  ∧ ∃ s', send_msg "heartbeat" PNone true None "u1" None [] [] [] demo_idle
          = Some (Ok PNone, s')
          ∧ trace s' = [EvLockAcquire; EvConnSend "<json>";
                        EvSetFutComm None; EvSetExpectedMsgId None; EvLockRelease]
          ∧ loop_futures s' = [].
Proof.
  split; [reflexivity |].
  destruct (send_msg_notification (rt := demo_runtime) "heartbeat" PNone None "u1"
              None [] [] [] demo_idle eq_refl)
    as (r & s' & _ & Hs & _ & _ & _ & Hf & _ & Hsent).
  destruct (Hsent "<json>"%string eq_refl eq_refl) as [-> Ht].
  exists s'. auto.
Defined.

Example demo_client_state :
  demo_client
  = {| _timeout_receive := 2000; _timeout_send := 500;
       _raise_timeout_exceptions := false; _zmq_socket := Some 0%nat;
       _zmq_server_address := "tcp://localhost:5555"; _lock_zmq := false;
       ctx_sockets := [{| connected_to := Some "tcp://localhost:5555"%string;
                          RCVTIMEO := 2000; SNDTIMEO := 500;
                          LINGER := Some 100%Z; closed := false; sent := [] |}] |}.
Proof. reflexivity. Qed.

Lemma demo_client_ready : zmq_ready demo_client.
Proof.
  split; [reflexivity |]. split; [reflexivity |].
  exists 0%nat, (fresh_socket demo_client). repeat split.
Defined.

Lemma send_message_failure_restarts_witness :
  let r := fst (send_message "status" PNone false demo_unanswered demo_client) in
  let z' := snd (send_message "status" PNone false demo_unanswered demo_client) in
  r = Ok (PDict (<["msg" := PStr "ZMQ communication error: Resource temporarily unavailable"]>
                   (<["success" := PBool false]> ∅)))
  ∧ (∃ sock', ctx_sockets z' !! 0%nat = Some sock' ∧ closed sock' = true)
  ∧ (∃ new, new ≠ 0%nat ∧ _zmq_socket z' = Some new
            ∧ ctx_sockets z' !! new
              = Some {| connected_to := Some "tcp://localhost:5555"%string;
                        RCVTIMEO := 2000; SNDTIMEO := 500;
                        LINGER := Some 100%Z; closed := false; sent := [] |}).
Proof.
  destruct (send_message_failure_restarts (rt := demo_runtime) demo_client
              "status" PNone false demo_unanswered 0
              (LibError "Again" "Resource temporarily unavailable")
              demo_client_ready eq_refl eq_refl)
    as (Hold & Hnew & _ & _ & _ & Hr).
  split; [exact Hr |]. split; [exact Hold | exact Hnew].
Defined.

Lemma send_message_ignores_raise_exceptions_witness :
  send_message "status" PNone true demo_unanswered demo_client
  = send_message "status" PNone false demo_unanswered demo_client
  ∧ is_ok (fst (send_message "status" PNone true demo_unanswered demo_client)) = true.
Proof.
  destruct (send_message_ignores_raise_exceptions (rt := demo_runtime) demo_client
              "status" PNone demo_unanswered) as [Hsame Hflag].
  split; [apply Hsame |].
  exact (Hflag true (LibError "Again" "Resource temporarily unavailable")
           demo_client_ready eq_refl).
Defined.

Lemma zmq_single_request_outcomes_witness :
  zmq_single_request "status" PNone None demo_unanswered
  = Ok (PDict (<["msg" := PStr "ZMQ communication error: Resource temporarily unavailable"]>
                 (<["success" := PBool false]> ∅)), ""%string)
  ∧ zmq_single_request "status" PNone None
      {| send_json_raises := None; recv_json_gives := Ok (PInt 7) |}
    = Ok (PInt 7, ""%string)
  ∧ ∃ ex, fst (send_request "status" PNone (Some "bad://"%string) demo_unanswered)
          = Raise ex
          ∧ "Protocol not supported"%string = exn_str ex.
Proof.
  split; [| split].
  - destruct (zmq_single_request_outcomes (rt := demo_runtime) "status" PNone None
                demo_unanswered) as (_ & _ & Habsorbed & _).
    exact (Habsorbed demo_client
             (LibError "Again" "Resource temporarily unavailable") eq_refl eq_refl).
  - destruct (zmq_single_request_outcomes (rt := demo_runtime) "status" PNone None
                {| send_json_raises := None; recv_json_gives := Ok (PInt 7) |})
      as (_ & Hret & _).
    exact (Hret demo_client (PInt 7)
             (snd (send_message "status" PNone false
                     {| send_json_raises := None; recv_json_gives := Ok (PInt 7) |}
                     demo_client))
             eq_refl eq_refl).
  - destruct (zmq_single_request_outcomes (rt := demo_runtime) "status" PNone
                (Some "bad://"%string) demo_unanswered) as (_ & _ & _ & Hraise).
    apply Hraise; [reflexivity | discriminate].
Defined.

(** C5.  [zmq_single_request] on a request that the peer never answers:
    the call returns, but the message is the value
    [{'success': False, 'msg': ...}] and the error text is empty, not
    [None] with a non-empty text. *)
Theorem zmq_single_request_unanswered :
  zmq_single_request "status" PNone None demo_unanswered
  = Ok (PDict (<["msg" := PStr "ZMQ communication error: Resource temporarily unavailable"]>
                 (<["success" := PBool false]> ∅)), ""%string).
Proof. vm_compute. reflexivity. Qed.

(** * Further properties *)

(** ** The pipe client: what decides the outcome of a call *)

Lemma find_filter {A} (p : A → bool) (l : list A) :
  find p (filter (fun x => p x = true) l) = find p l.
Proof.
  induction l as [|a l IH]; [reflexivity |].
  rewrite filter_cons. simpl. destruct (p a) eqn:Hp.
  - rewrite decide_True by reflexivity. simpl. rewrite Hp. reflexivity.
  - rewrite decide_False by discriminate. exact IH.
Qed.

Section pipe_outcomes.
Context {rt : PyRuntime}.

(** X1.  The outcome of a request that was written depends only on the
    messages that carry its id and are handled before the call is
    resumed: the messages with another id or without one, and the
    messages handled while [wait_for] waits for the cancellation of the
    future, can be left out without changing what the call returns or
    raises. *)
Theorem send_msg_ignores_other_ids (method : string) (params : pyval)
    (timeout : option Q) (uuid4 : string) (incoming racing late : list pydict)
    (s : PipeJsonRpcSendAsync) (msg_json : string) :
  _lock_comm s = false →
  json_dumps (format_jsonrpc_msg method params false uuid4) = Ok msg_json →
  fst <$> send_msg method params false timeout uuid4 None incoming racing late s
  = fst <$> send_msg method params false timeout uuid4 None
              (filter (fun r => answers uuid4 r = true) incoming)
              (filter (fun r => answers uuid4 r = true) racing) [] s.
Proof.
  intros Hl Hj.
  destruct (send_msg_request_outcome method params timeout uuid4 incoming racing
              late s msg_json Hl Hj) as [s1 ->].
  destruct (send_msg_request_outcome method params timeout uuid4
              (filter (fun r => answers uuid4 r = true) incoming)
              (filter (fun r => answers uuid4 r = true) racing) []
              s msg_json Hl Hj) as [s2 ->].
  simpl. rewrite <- filter_app, find_filter. reflexivity.
Qed.

(** The exception that leaves [send_msg] when [e] was raised inside the
    [try] block. *)
Lemma send_msg_unwind_raise msg e s :
  fst (send_msg_unwind msg (mraise e) s)
  = Raise (if is_asyncio_timeout e then CommTimeoutError (timeout_text msg) else e).
Proof.
  unfold_send_msg. unfold_pipe. unfold_monad. simpl.
  destruct (is_asyncio_timeout e); reflexivity.
Qed.

(** X2.  What a call of [send_msg] returns or raises does not depend on
    the state in which earlier calls left the instance: on two instances
    whose lock is free, the same call with the same deliveries has the
    same outcome. *)
Theorem send_msg_outcome_forgets_history (method : string) (params : pyval)
    (notification : bool) (timeout : option Q) (uuid4 : string)
    (send_err : option exn) (incoming racing late : list pydict)
    (s s' : PipeJsonRpcSendAsync) :
  _lock_comm s = false → _lock_comm s' = false →
  fst <$> send_msg method params notification timeout uuid4 send_err
            incoming racing late s
  = fst <$> send_msg method params notification timeout uuid4 send_err
              incoming racing late s'.
Proof.
  intros Hl Hl'.
  destruct (json_dumps (format_jsonrpc_msg method params notification uuid4))
    as [msg_json|e] eqn:Hj.
  - destruct send_err as [e|].
    + unfold send_msg. unfold_send_msg. rewrite Hl, Hl'.
      unfold_pipe. unfold_monad. simpl. rewrite Hj. simpl.
      destruct (is_asyncio_timeout e); reflexivity.
    + destruct notification.
      * unfold send_msg.
        rewrite (send_msg_begin_notification _ _ timeout _ _ _ Hl Hj).
        rewrite (send_msg_begin_notification _ _ timeout _ _ _ Hl' Hj).
        reflexivity.
      * destruct (send_msg_request_outcome method params timeout uuid4 incoming
                    racing late s msg_json Hl Hj) as [s1 ->].
        destruct (send_msg_request_outcome method params timeout uuid4 incoming
                    racing late s' msg_json Hl' Hj) as [s2 ->].
        reflexivity.
  - unfold send_msg. unfold_send_msg. rewrite Hl, Hl'.
    unfold_pipe. unfold_monad. simpl. rewrite Hj. simpl.
    destruct (is_asyncio_timeout e); reflexivity.
Qed.

Lemma send_msg_fails_to_write method params notification timeout uuid4 send_err
    incoming racing late s e :
  _lock_comm s = false →
  let msg := format_jsonrpc_msg method params notification uuid4 in
  json_dumps msg = Raise e ∨ (is_ok (json_dumps msg) = true ∧ send_err = Some e) →
  ∃ s',
    send_msg method params notification timeout uuid4 send_err
      incoming racing late s
    = Some (Raise (if is_asyncio_timeout e
                   then CommTimeoutError (timeout_text msg) else e), s')
    ∧ trace s' = trace s ++ [EvLockAcquire; EvSetFutComm None;
                             EvSetExpectedMsgId None; EvLockRelease]
    ∧ loop_futures s' = loop_futures s
    ∧ _fut_comm s' = None ∧ _expected_msg_id s' = None ∧ _lock_comm s' = false.
Proof.
  intros Hl msg Hfail. subst msg.
  unfold send_msg. unfold_send_msg. rewrite Hl.
  unfold_pipe. unfold_monad. simpl.
  destruct Hfail as [Hj | [Hj ->]].
  - rewrite Hj. simpl.
    destruct (is_asyncio_timeout e); simpl;
      eexists; (split; [reflexivity |]); simpl; tidy_trace; repeat split.
  - destruct (json_dumps _) as [msg_json|]; [| discriminate]. simpl.
    destruct (is_asyncio_timeout e); simpl;
      eexists; (split; [reflexivity |]); simpl; tidy_trace; repeat split.
Qed.

(** X3.  When [json.dumps] or the write to the pipe raises, [send_msg]
    raises that exception ([CommTimeoutError] in its place when it is an
    [asyncio.TimeoutError]); no write is recorded, no future is created
    and nothing is awaited: the effects of the call are the acquisition
    of the lock, the two assignments of [None] and the release. *)
Theorem send_msg_write_failure (method : string) (params : pyval)
    (notification : bool) (timeout : option Q) (uuid4 : string)
    (send_err : option exn) (incoming racing late : list pydict)
    (s : PipeJsonRpcSendAsync) (e : exn) :
  _lock_comm s = false →
  let msg := format_jsonrpc_msg method params notification uuid4 in
  json_dumps msg = Raise e ∨ (is_ok (json_dumps msg) = true ∧ send_err = Some e) →
  ∃ s',
    send_msg method params notification timeout uuid4 send_err
      incoming racing late s
    = Some (Raise (if is_asyncio_timeout e
                   then CommTimeoutError (timeout_text msg) else e), s')
    ∧ trace s' = trace s ++ [EvLockAcquire; EvSetFutComm None;
                             EvSetExpectedMsgId None; EvLockRelease]
    ∧ loop_futures s' = loop_futures s
    ∧ _fut_comm s' = None ∧ _expected_msg_id s' = None ∧ _lock_comm s' = false.
Proof. apply send_msg_fails_to_write. Qed.

(** X4.  A message with the expected id that arrives when the future in
    [_fut_comm] is no longer pending (a second answer, or an answer
    after [wait_for] has cancelled the future): [set_result] raises
    [InvalidStateError] in [_response_received] and the instance is left
    as it was. *)
Theorem response_received_after_completion (s : PipeJsonRpcSendAsync)
    (response : pydict) (expected : string) (f : nat) :
  _expected_msg_id s = Some expected →
  response !! "id" = Some (PStr expected) →
  _fut_comm s = Some f →
  loop_futures s !! f ≠ Some FutPending →
  _response_received response s = (Raise InvalidStateError, s)
  ∧ deliver response s = s.
Proof.
  intros He Hid Hf Hp.
  rewrite (response_received_match _ _ _ _ He Hid Hf).
  unfold deliver. rewrite (response_received_match _ _ _ _ He Hid Hf).
  unfold future_set_result. unfold_monad.
  destruct (loop_futures s !! f) as [[| |]|]; try (split; reflexivity).
  contradiction.
Qed.

(** X5.  A request that is written reaches [wait_for], where the call
    suspends, with the id of the written message in [_expected_msg_id],
    a new pending future in [_fut_comm], the lock held, one write of
    [json.dumps(msg)], and the timeout of the call, or [_timeout_comm]
    when the call gives [None]. *)
Theorem send_msg_request_suspends (method : string) (params : pyval)
    (timeout : option Q) (uuid4 : string) (s : PipeJsonRpcSendAsync)
    (msg_json : string) :
  _lock_comm s = false →
  json_dumps (format_jsonrpc_msg method params false uuid4) = Ok msg_json →
  ∃ msg f s',
    send_msg_begin method params false timeout uuid4 None s = (Awaiting msg f, s')
    ∧ msg !! "id" = Some (PStr uuid4)
    ∧ _expected_msg_id s' = Some uuid4
    ∧ _fut_comm s' = Some f
    ∧ loop_futures s !! f = None
    ∧ loop_futures s' = loop_futures s ++ [FutPending]
    ∧ _lock_comm s' = true
    ∧ trace s' = trace s ++
        [EvLockAcquire; EvConnSend msg_json; EvSetExpectedMsgId (Some uuid4);
         EvCreateFuture f; EvSetFutComm (Some f);
         EvWaitFor f (match timeout with Some t => t | None => _timeout_comm s end)].
Proof.
  intros Hl Hj. eexists _, _, _.
  rewrite (send_msg_begin_request _ _ _ _ _ _ Hl Hj). simpl.
  split; [reflexivity |]. split.
  { unfold format_jsonrpc_msg. simpl. apply lookup_insert_eq. }
  repeat split. apply lookup_ge_None. lia.
Qed.
End pipe_outcomes.

(** ** The pipe client under concurrent callers: writes and progress *)

Lemma send_discipline_app (tr evs : list event) :
  send_discipline (tr ++ evs) = foldl send_event (send_discipline tr) evs.
Proof. unfold send_discipline. apply foldl_app. Qed.

Section pipe_writes.
Context {rt : PyRuntime}.

(** What a delivered message does to the instance. *)
Lemma deliver_cases response s :
  deliver response s = s
  ∨ (∃ rec, deliver response s = snd (logger_error rec s))
  ∨ (∃ f, _fut_comm s = Some f ∧ loop_futures s !! f = Some FutPending
          ∧ deliver response s = snd (future_set_result f response s)).
Proof.
  unfold deliver, _response_received. unfold_monad.
  destruct (_expected_msg_id s) as [u|]; simpl; [| right; left; eauto].
  destruct (dict_contains response "id"); simpl; [| right; left; eauto].
  destruct (dict_getitem response "id"); simpl; [| left; reflexivity].
  destruct (negb _); simpl; [right; left; eauto |].
  destruct (_fut_comm s) as [f|] eqn:Hf; simpl; [| left; reflexivity].
  destruct (loop_futures s !! f) as [[| |]|] eqn:Hp.
  - right. right. exists f. auto.
  - left. unfold future_set_result. unfold_monad. rewrite Hp. reflexivity.
  - left. unfold future_set_result. unfold_monad. rewrite Hp. reflexivity.
  - left. unfold future_set_result. unfold_monad. rewrite Hp. reflexivity.
Qed.

Lemma deliver_send_discipline response s :
  send_discipline (trace s) = Some (outstanding_request s) →
  send_discipline (trace (deliver response s))
  = Some (outstanding_request (deliver response s)).
Proof.
  intros Hd.
  destruct (deliver_cases response s) as [-> | [[rec ->] | (f & Hf & Hp & ->)]].
  - exact Hd.
  - simpl. rewrite send_discipline_app, Hd. reflexivity.
  - unfold future_set_result. unfold_pipe. unfold_monad. rewrite Hp. simpl.
    rewrite send_discipline_app, Hd. unfold outstanding_request. simpl.
    rewrite Hf, Hp. simpl. rewrite bool_decide_true by reflexivity.
    rewrite list_lookup_insert_eq by (eapply lookup_lt_Some; eassumption).
    reflexivity.
Qed.

Lemma cancel_and_wait_send_discipline f s :
  _fut_comm s = Some f →
  send_discipline (trace s) = Some (outstanding_request s) →
  send_discipline (trace (cancel_and_wait f s))
  = Some (outstanding_request (cancel_and_wait f s)).
Proof.
  intros Hf Hd. unfold cancel_and_wait, future_cancel. unfold_pipe. unfold_monad.
  destruct (loop_futures s !! f) as [[| |]|] eqn:Hp; simpl; try exact Hd.
  rewrite send_discipline_app, Hd. unfold outstanding_request. simpl.
  rewrite Hf, Hp. simpl. rewrite bool_decide_true by reflexivity.
  rewrite list_lookup_insert_eq by (eapply lookup_lt_Some; eassumption).
  reflexivity.
Qed.

Lemma writes_invariant_exec a sy : writes_invariant sy → writes_invariant (exec a sy).
Proof.
  intros [Hinv Hd]. split; [apply pipe_invariant_exec, Hinv |].
  pose proof Hinv as (Hg & Hc & Hfree & Hw).
  destruct a as [args | i uuid4 send_err | response | i | i]; simpl.
  - exact Hd.
  - destruct (tasks sy !! i) as [[args| |]|] eqn:Hi; try exact Hd.
    destruct (_lock_comm (client sy)) eqn:Hl.
    { rewrite send_msg_begin_blocked by assumption. exact Hd. }
    pose proof (send_msg_begin_free (call_method args) (call_params args)
                  (call_notification args) (call_timeout args) uuid4 send_err
                  (client sy) Hl) as Hb.
    destruct (Hfree eq_refl) as [He0 Hf0].
    assert (Ho : outstanding_request (client sy) = None).
    { unfold outstanding_request. rewrite Hf0. reflexivity. }
    rewrite Ho in Hd.
    destruct (send_msg_begin _ _ _ _ _ _ _) as [[|msg f|r] c]; [done | |]; simpl.
    + destruct Hb as (_ & _ & -> & Hfut & Hf & _ & _ & msg_json & t & Ht).
      rewrite Ht, send_discipline_app, Hd. unfold outstanding_request.
      rewrite Hf, Hfut. rewrite lookup_app_r by lia. rewrite Nat.sub_diag.
      reflexivity.
    + destruct Hb as (_ & Hf & _ & _ & evs & Ht & Hevs).
      rewrite Ht, send_discipline_app, Hd. unfold outstanding_request. rewrite Hf.
      destruct Hevs as [-> | [msg_json ->]]; reflexivity.
  - apply deliver_send_discipline, Hd.
  - destruct (tasks sy !! i) as [[|msg f|]|] eqn:Hi; try exact Hd.
    destruct (Hw _ _ _ Hi) as (_ & Hf & _). simpl.
    apply cancel_and_wait_send_discipline; assumption.
  - destruct (tasks sy !! i) as [[|msg f|]|] eqn:Hi; try exact Hd.
    destruct (Hw _ _ _ Hi) as (_ & Hf & _).
    destruct (loop_futures (client sy) !! f) as [[| |]|] eqn:Hp; try exact Hd.
    all: assert (Ho : outstanding_request (client sy) = None)
           by (unfold outstanding_request; rewrite Hf, Hp; reflexivity).
    all: rewrite Ho in Hd.
    all: destruct (send_msg_resume_unwinds msg f (client sy))
           as (r0 & c & -> & _ & Hf' & _ & _ & evs & Ht & Hevs); simpl.
    all: rewrite Ht, send_discipline_app, Hd; unfold outstanding_request;
         rewrite Hf'; destruct Hevs as [-> | ->]; reflexivity.
Qed.

Lemma writes_invariant_run schedule : ∀ sy,
  writes_invariant sy → writes_invariant (run schedule sy).
Proof.
  induction schedule as [|a schedule IH]; intros sy Hinv; simpl; [assumption |].
  apply IH, writes_invariant_exec, Hinv.
Qed.

(** X8.  Under any schedule of concurrent callers, no message is written
    to the pipe while a request is outstanding, that is between the
    [wait_for] of a request and the [set_result] or the cancellation of
    its future; and a request is outstanding exactly when [_fut_comm]
    is a pending future.  (The class docstring: the next message is
    never sent before the response to the previous message is received
    or timeout occurred.) *)
Theorem next_message_waits_for_previous (timeout : Q) (schedule : list action) :
  let c := client (run schedule (initial_system timeout)) in
  send_discipline (trace c) = Some (outstanding_request c).
Proof.
  apply (writes_invariant_run schedule (initial_system timeout)).
  split; [apply pipe_invariant_initial | reflexivity].
Qed.
End pipe_writes.

Lemma find_some_elem {A} (p : A → bool) (l : list A) (x : A) :
  find p l = Some x → x ∈ l ∧ p x = true.
Proof.
  induction l as [|a l IH]; simpl; [discriminate |].
  destruct (p a) eqn:Hp.
  - intros [= <-]. split; [constructor | exact Hp].
  - intros Hf. destruct (IH Hf). split; [by constructor | assumption].
Qed.

Lemma pipe_writes_app tr evs :
  pipe_writes (tr ++ evs) = pipe_writes tr ++ pipe_writes evs.
Proof. unfold pipe_writes. apply omap_app. Qed.

Section pipe_provenance.
Context {rt : PyRuntime}.

Lemma handle_response_ok msg response v :
  handle_response msg response = Ok v → response !! "result" = Some v.
Proof.
  unfold handle_response, dict_contains, dict_getitem.
  destruct (response !! "result") as [v'|]; [congruence |].
  destruct (response !! "error") as [error|]; simpl; [| discriminate].
  destruct (py_getitem error "code"); simpl; [| discriminate].
  destruct (py_contains error "data") as [[|]|]; simpl; [| | discriminate].
  - destruct (py_getitem error "data") as [data|]; simpl; [| discriminate].
    destruct (py_getitem data "type"); simpl; [| discriminate].
    destruct (py_getitem error "message"); simpl; [| discriminate].
    destruct (py_getitem data "message"); simpl; discriminate.
  - destruct (py_getitem error "message"); simpl; discriminate.
Qed.

(** X6.  [send_msg] returns a value only if a message that was handled
    before the call was resumed, before or after the firing of the
    timer, carries the id of the request and that value under
    ['result']; a message handled while [wait_for] waits for the
    cancellation of the future never provides the value. *)
Theorem send_msg_result_provenance (method : string) (params : pyval)
    (timeout : option Q) (uuid4 : string) (incoming racing late : list pydict)
    (s s' : PipeJsonRpcSendAsync) (msg_json : string) (v : pyval) :
  _lock_comm s = false →
  json_dumps (format_jsonrpc_msg method params false uuid4) = Ok msg_json →
  send_msg method params false timeout uuid4 None incoming racing late s
  = Some (Ok v, s') →
  ∃ response, response ∈ incoming ++ racing
              ∧ response !! "id" = Some (PStr uuid4)
              ∧ response !! "result" = Some v.
Proof.
  intros Hl Hj Hcall.
  destruct (send_msg_request_outcome method params timeout uuid4 incoming racing
              late s msg_json Hl Hj) as [s1 Heq].
  rewrite Hcall in Heq. injection Heq as Hr _.
  destruct (find (answers uuid4) (incoming ++ racing)) as [response|] eqn:Hfind;
    [| discriminate].
  destruct (find_some_elem _ _ _ Hfind) as [Hin Ha].
  exists response. split; [exact Hin |]. split.
  - by apply answers_spec.
  - eapply handle_response_ok. symmetry. exact Hr.
Qed.

Lemma deliver_writes response s :
  pipe_writes (trace (deliver response s)) = pipe_writes (trace s).
Proof.
  destruct (deliver_cases response s) as [-> | [[rec ->] | (f & _ & Hp & ->)]].
  - reflexivity.
  - simpl. rewrite pipe_writes_app. simpl. by rewrite app_nil_r.
  - unfold future_set_result. unfold_pipe. unfold_monad. rewrite Hp. simpl.
    rewrite pipe_writes_app. simpl. by rewrite app_nil_r.
Qed.

Lemma deliver_all_writes rs : ∀ s,
  pipe_writes (trace (foldl (fun s r => deliver r s) s rs)) = pipe_writes (trace s).
Proof.
  induction rs as [|r rs IH]; intros s; simpl; [reflexivity |].
  rewrite IH. apply deliver_writes.
Qed.

Lemma cancel_and_wait_writes f s :
  pipe_writes (trace (cancel_and_wait f s)) = pipe_writes (trace s).
Proof.
  unfold cancel_and_wait, future_cancel. unfold_pipe. unfold_monad.
  destruct (loop_futures s !! f) as [[| |]|]; simpl; try reflexivity.
  rewrite pipe_writes_app. simpl. by rewrite app_nil_r.
Qed.

Lemma send_msg_resume_writes msg f s :
  pipe_writes (trace (snd (send_msg_resume msg f s))) = pipe_writes (trace s).
Proof.
  destruct (send_msg_resume_unwinds msg f s)
    as (r & s' & Heq & _ & _ & _ & _ & evs & Ht & Hevs).
  rewrite Heq. simpl. rewrite Ht, !pipe_writes_app.
  destruct Hevs as [-> | ->]; simpl; by rewrite app_nil_r.
Qed.

(** X7.  A call of [send_msg] writes to the pipe at most once: the
    [json.dumps] of its message when [json.dumps] and the write succeed,
    nothing otherwise; the messages delivered meanwhile, the
    cancellation of the future and the resumption write nothing. *)
Theorem send_msg_writes_once (method : string) (params : pyval)
    (notification : bool) (timeout : option Q) (uuid4 : string)
    (send_err : option exn) (incoming racing late : list pydict)
    (s : PipeJsonRpcSendAsync) :
  _lock_comm s = false →
  ∃ r s',
    send_msg method params notification timeout uuid4 send_err
      incoming racing late s
    = Some (r, s')
    ∧ pipe_writes (trace s')
      = pipe_writes (trace s) ++
        match json_dumps (format_jsonrpc_msg method params notification uuid4),
              send_err with
        | Ok msg_json, None => [msg_json]
        | _, _ => []
        end.
Proof.
  intros Hl.
  destruct (json_dumps (format_jsonrpc_msg method params notification uuid4))
    as [msg_json|e] eqn:Hj.
  - destruct send_err as [e|].
    + destruct (send_msg_fails_to_write method params notification timeout uuid4
                  (Some e) incoming racing late s e Hl) as (s' & -> & Ht & _).
      { right. rewrite Hj. auto. }
      eexists _, _. split; [reflexivity |].
      rewrite Ht, pipe_writes_app. reflexivity.
    + destruct notification.
      * unfold send_msg.
        rewrite (send_msg_begin_notification _ _ _ _ _ _ Hl Hj).
        eexists _, _. split; [reflexivity |]. simpl.
        rewrite pipe_writes_app. reflexivity.
      * unfold send_msg.
        rewrite (send_msg_begin_request _ _ _ _ _ _ Hl Hj).
        match goal with |- context [send_msg_resume ?m ?f ?s0] =>
          pose proof (send_msg_resume_writes m f s0) as Hw;
          destruct (send_msg_resume m f s0) as [r s'] eqn:Hr
        end.
        exists r, s'. split; [reflexivity |]. simpl in Hw. rewrite Hw.
        rewrite deliver_all_writes, cancel_and_wait_writes, !deliver_all_writes.
        simpl.
        rewrite pipe_writes_app. reflexivity.
  - destruct (send_msg_fails_to_write method params notification timeout uuid4
                send_err incoming racing late s e Hl) as (s' & -> & Ht & _).
    { left. exact Hj. }
    eexists _, _. split; [reflexivity |].
    rewrite Ht, pipe_writes_app. reflexivity.
Qed.
End pipe_provenance.

Section pipe_progress.
Context {rt : PyRuntime}.

(** X9.  In every state that the loop reaches, a waiting call ends once
    its timer has fired and the call is resumed, with nothing handled
    in between: with what [handle_response] makes of the response if
    its future already holds one, with [CommTimeoutError] otherwise.
    The lock is then free, no call is waiting, and any caller that was
    held at the lock enters. *)
Theorem waiting_call_can_finish (timeout : Q) (schedule : list action)
    (i : nat) (msg : pydict) (f : nat) :
  let sy := run schedule (initial_system timeout) in
  tasks sy !! i = Some (TAwaiting msg f) →
  let sy' := run [ATimeout i; AResume i] sy in
  tasks sy' !! i
  = Some (TFinished
            match loop_futures (client sy) !! f with
            | Some (FutResult response) => handle_response msg response
            | _ => Raise (CommTimeoutError (timeout_text msg))
            end)
  ∧ _lock_comm (client sy') = false
  ∧ pending_requests sy' = []
  ∧ ∀ j args uuid4 send_err,
      tasks sy' !! j = Some (TCall args) →
      tasks (exec (AEnter j uuid4 send_err) sy') !! j ≠ Some (TCall args).
Proof.
  intros sy Hi sy'.
  pose proof (pipe_invariant_run schedule _ (pipe_invariant_initial timeout)) as Hinv.
  fold sy in Hinv.
  assert (Hinv' : pipe_invariant sy').
  { subst sy'. apply pipe_invariant_run, Hinv. }
  destruct Hinv as (_ & _ & _ & Hw).
  destruct (Hw _ _ _ Hi) as (Hl & Hf & Hlt & _).
  destruct (lookup_lt_is_Some_2 _ _ Hlt) as [st Hst].
  destruct (cancel_and_wait_slot f (client sy)) as (_ & Hf1 & _ & _ & Hs1).
  rewrite Hst in Hs1. rewrite Hf in Hf1.
  assert (Hsy' : sy' = let (r, c) := send_msg_resume msg f (cancel_and_wait f (client sy)) in
                       {| client := c; tasks := <[i:=TFinished r]> (tasks sy) |}).
  { subst sy'. simpl. rewrite Hi. simpl. rewrite Hi.
    rewrite Hs1. destruct st; reflexivity. }
  assert (Hr : fst (send_msg_resume msg f (cancel_and_wait f (client sy)))
               = match st with
                 | FutResult response => handle_response msg response
                 | _ => Raise (CommTimeoutError (timeout_text msg))
                 end).
  { destruct st as [|response|].
    - apply send_msg_resume_timeout. intros response. rewrite Hs1. discriminate.
    - apply send_msg_resume_result; assumption.
    - apply send_msg_resume_timeout. intros response. rewrite Hs1. discriminate. }
  destruct (send_msg_resume_unwinds msg f (cancel_and_wait f (client sy)))
    as (r & c & Heq & _ & _ & _ & Hl' & _).
  rewrite Heq in Hsy', Hr. simpl in Hr.
  assert (Hlock : _lock_comm (client sy') = false) by (rewrite Hsy'; exact Hl').
  split; [| split; [| split]].
  - rewrite Hsy'. simpl. rewrite Hst.
    rewrite list_lookup_insert_eq by (eapply lookup_lt_Some; eassumption).
    rewrite Hr. destruct st; reflexivity.
  - exact Hlock.
  - destruct Hinv' as (_ & Hc & _). rewrite Hlock in Hc.
    destruct (pending_requests sy'); [reflexivity | discriminate].
  - intros j args uuid4 send_err Hj. simpl. rewrite Hj.
    pose proof (send_msg_begin_free (call_method args) (call_params args)
                  (call_notification args) (call_timeout args) uuid4 send_err
                  (client sy') Hlock) as Hb.
    destruct (send_msg_begin _ _ _ _ _ _ _) as [[|msg' f'|r'] c']; [done | |];
      simpl; rewrite list_lookup_insert_eq by (eapply lookup_lt_Some; eassumption);
      discriminate.
Qed.
End pipe_progress.

(** ** The receive threads *)

Lemma receiver_exec_threads a s :
  (length (threads (receiver_exec a s)) + slack (receiver_exec a s)
   ≤ length (threads s) + slack s + (if is_stop a then 1 else 0))%nat.
Proof.
  unfold slack.
  destruct a as [| | i | i]; simpl;
    unfold start, _start_conn_thread, stop, thread_check, thread_break;
    destruct (_thread_running s) eqn:Hr; simpl; rewrite ?Hr;
    rewrite ?length_app, ?length_insert; simpl; lia.
Qed.

Lemma receiver_run_threads actions : ∀ s,
  (length (threads (receiver_run actions s)) + slack (receiver_run actions s)
   ≤ length (threads s) + slack s
     + length (filter (fun a => is_stop a = true) actions))%nat.
Proof.
  induction actions as [|a actions IH]; intros s; simpl; [lia |].
  specialize (IH (receiver_exec a s)).
  pose proof (receiver_exec_threads a s) as Ha.
  rewrite filter_cons. unfold receiver_run in *.
  destruct (is_stop a); case_decide; try congruence; simpl in *; lia.
Qed.

(** X11.  [start] does nothing while the flag is set: over any series of
    [start], [stop], loop tests and loop failures, the number of receive
    threads ever started is at most the number of [stop] calls plus
    one. *)
Theorem threads_started_bounded (actions : list receiver_action) :
  (length (threads (receiver_run actions receiver_init))
   ≤ length (filter (fun a => is_stop a = true) actions) + 1)%nat.
Proof.
  pose proof (receiver_run_threads actions receiver_init) as Hb.
  simpl in Hb. lia.
Qed.

(** X12.  [stop] followed by [start] before any loop has tested the flag
    starts a new thread and ends none: the flag is set again, so the
    tests of the loops find it set, and every thread that was alive
    stays alive beside the new one. *)
Theorem restart_keeps_running_threads (s : receiver)
    (checks : list receiver_action) :
  (∀ a, a ∈ checks → is_check a = true) →
  receiver_run checks (start (stop s))
  = {| _thread_running := true; threads := threads s ++ [true] |}
  ∧ live_threads (receiver_run checks (start (stop s))) = (live_threads s + 1)%nat.
Proof.
  intros Hchecks.
  assert (Hrun : receiver_run checks (start (stop s))
                 = {| _thread_running := true; threads := threads s ++ [true] |}).
  { unfold start, stop, _start_conn_thread. simpl.
    generalize (threads s ++ [true]) as ts. intros ts.
    induction checks as [|a checks IH]; [reflexivity |]. simpl.
    assert (Ha : is_check a = true) by (apply Hchecks; constructor).
    destruct a as [| | i | i]; try discriminate. simpl.
    apply IH. intros b Hb. apply Hchecks. by constructor. }
  split; [exact Hrun |]. rewrite Hrun. unfold live_threads. simpl.
  rewrite filter_app, length_app. reflexivity.
Qed.

(** ** The receive loops *)

Section receive_loops.
Variable handle : string → result (option string).
Variable json_loads : string → result pyval.

Lemma responses_to_app msgs msgs' :
  responses_to handle (msgs ++ msgs')
  = responses_to handle msgs ++ responses_to handle msgs'.
Proof. unfold responses_to. apply omap_app. Qed.

Lemma decoded_app msgs msgs' :
  decoded json_loads (msgs ++ msgs')
  = decoded json_loads msgs ++ decoded json_loads msgs'.
Proof. unfold decoded. apply omap_app. Qed.

(** One pass of [_receive_conn_thread] that does not fail. *)
Lemma receive_pass_ok p written :
  pass_fails_receive handle p = None →
  match polled p with
  | Some received =>
      let? msg := received in
      _conn_received handle (response_send_raises p) msg written
  | None => Ok written
  end = Ok (written ++ responses_to handle (pass_received p)).
Proof.
  unfold pass_fails_receive, pass_received, _conn_received, responses_to.
  destruct (polled p) as [[msg|e]|]; simpl; try discriminate.
  - destruct (handle msg) as [[response|]|e]; simpl; try discriminate.
    + intros ->. reflexivity.
    + intros _. by rewrite app_nil_r.
  - intros _. by rewrite app_nil_r.
Qed.

Lemma receive_pass_fails p written e :
  pass_fails_receive handle p = Some e →
  match polled p with
  | Some received =>
      let? msg := received in
      _conn_received handle (response_send_raises p) msg written
  | None => Ok written
  end = Raise e.
Proof.
  unfold pass_fails_receive, _conn_received.
  destruct (polled p) as [[msg|e']|]; simpl; try discriminate.
  - destruct (handle msg) as [[response|]|e']; simpl; try discriminate.
    + intros ->. reflexivity.
    + intros [= ->]. reflexivity.
  - intros [= ->]. reflexivity.
Qed.

Lemma receive_loop_prefix before : ∀ rest written,
  (∀ p, p ∈ before → pass_continues (pass_fails_receive handle) p) →
  _receive_conn_thread handle (before ++ rest) written
  = _receive_conn_thread handle rest
      (written ++ responses_to handle (flat_map pass_received before)).
Proof.
  induction before as [|p before IH]; intros rest written Hgood; simpl.
  - by rewrite app_nil_r.
  - destruct (Hgood p) as [Hrun Hok]; [constructor |].
    rewrite (receive_pass_ok p written Hok). rewrite Hrun. simpl.
    rewrite IH by (intros q Hq; apply Hgood; by constructor).
    rewrite responses_to_app, app_assoc. reflexivity.
Qed.

(** X13.  [PipeJsonRpcReceive._receive_conn_thread]: as long as the flag
    is found set and nothing raises, the responses of the manager are
    written in the order of the requests, and nothing is written for a
    message to which the manager gives no response.  The first
    exception, from [recv], from the manager or from the write, ends the
    loop: that response is not written and no later message is read.  A
    flag found clear ends the loop after the message of that pass has
    been handled. *)
Theorem receive_loop_ends (before after : list pass) (p : pass)
    (written : list string) :
  (∀ q, q ∈ before → pass_continues (pass_fails_receive handle) q) →
  let handled := written ++ responses_to handle (flat_map pass_received before) in
  _receive_conn_thread handle before written = (LoopRunning, handled)
  ∧ (∀ e, pass_fails_receive handle p = Some e →
          _receive_conn_thread handle (before ++ p :: after) written
          = (LoopFailed e, handled))
  ∧ (pass_fails_receive handle p = None → running_at_check p = false →
     _receive_conn_thread handle (before ++ p :: after) written
     = (LoopStopped, handled ++ responses_to handle (pass_received p))).
Proof.
  intros Hgood handled. subst handled. split; [| split].
  - rewrite <- (app_nil_r before) at 1.
    rewrite (receive_loop_prefix before [] written Hgood). reflexivity.
  - intros e He. rewrite (receive_loop_prefix before (p :: after) written Hgood).
    simpl. rewrite (receive_pass_fails p _ e He). reflexivity.
  - intros Hok Hstop.
    rewrite (receive_loop_prefix before (p :: after) written Hgood).
    simpl. rewrite (receive_pass_ok p _ Hok), Hstop. reflexivity.
Qed.

Lemma decode_pass_ok p handed :
  pass_fails_decode json_loads p = None →
  match polled p with
  | Some received =>
      let? msg_json := received in
      let? msg := json_loads msg_json in
      Ok (handed ++ [msg])
  | None => Ok handed
  end = Ok (handed ++ decoded json_loads (pass_received p)).
Proof.
  unfold pass_fails_decode, pass_received, decoded.
  destruct (polled p) as [[msg|e]|]; simpl; try discriminate.
  - destruct (json_loads msg) as [v|e]; simpl; try discriminate. reflexivity.
  - intros _. by rewrite app_nil_r.
Qed.

Lemma decode_pass_fails p handed e :
  pass_fails_decode json_loads p = Some e →
  match polled p with
  | Some received =>
      let? msg_json := received in
      let? msg := json_loads msg_json in
      Ok (handed ++ [msg])
  | None => Ok handed
  end = Raise e.
Proof.
  unfold pass_fails_decode.
  destruct (polled p) as [[msg|e']|]; simpl; try discriminate.
  - destruct (json_loads msg) as [v|e']; simpl; try discriminate.
    intros [= ->]. reflexivity.
  - intros [= ->]. reflexivity.
Qed.

Lemma pipe_receive_prefix before : ∀ rest handed,
  (∀ p, p ∈ before → pass_continues (pass_fails_decode json_loads) p) →
  _pipe_receive json_loads (before ++ rest) handed
  = _pipe_receive json_loads rest
      (handed ++ decoded json_loads (flat_map pass_received before)).
Proof.
  induction before as [|p before IH]; intros rest handed Hgood; simpl.
  - by rewrite app_nil_r.
  - destruct (Hgood p) as [Hrun Hok]; [constructor |].
    rewrite (decode_pass_ok p handed Hok). rewrite Hrun. simpl.
    rewrite IH by (intros q Hq; apply Hgood; by constructor).
    rewrite decoded_app, app_assoc. reflexivity.
Qed.

(** X14.  [PipeJsonRpcSendAsync._pipe_receive]: as long as the flag is
    found set and nothing raises, the decoded messages are handed to the
    loop in order.  The first message that [json.loads] cannot decode,
    or the first exception of [recv], ends the thread: no later message
    is handed over.  A flag found clear ends the loop after the message
    of that pass has been handed over. *)
Theorem pipe_receive_ends (before after : list pass) (p : pass)
    (handed : list pyval) :
  (∀ q, q ∈ before → pass_continues (pass_fails_decode json_loads) q) →
  let done := handed ++ decoded json_loads (flat_map pass_received before) in
  _pipe_receive json_loads before handed = (LoopRunning, done)
  ∧ (∀ e, pass_fails_decode json_loads p = Some e →
          _pipe_receive json_loads (before ++ p :: after) handed
          = (LoopFailed e, done))
  ∧ (pass_fails_decode json_loads p = None → running_at_check p = false →
     _pipe_receive json_loads (before ++ p :: after) handed
     = (LoopStopped, done ++ decoded json_loads (pass_received p))).
Proof.
  intros Hgood done. subst done. split; [| split].
  - rewrite <- (app_nil_r before) at 1.
    rewrite (pipe_receive_prefix before [] handed Hgood). reflexivity.
  - intros e He. rewrite (pipe_receive_prefix before (p :: after) handed Hgood).
    simpl. rewrite (decode_pass_fails p _ e He). reflexivity.
  - intros Hok Hstop.
    rewrite (pipe_receive_prefix before (p :: after) handed Hgood).
    simpl. rewrite (decode_pass_ok p _ Hok), Hstop. reflexivity.
Qed.
End receive_loops.

(** ** The ZMQ client: sockets over a series of calls *)

Lemma alter_last {A} (g : A → A) (l : list A) (x : A) :
  alter g (length l) (l ++ [x]) = l ++ [g x].
Proof. induction l as [|a l IH]; simpl; [reflexivity |]. f_equal. exact IH. Qed.

Lemma alter_as_insert {A} (g : A → A) (l : list A) (i : nat) (y : A) :
  l !! i = Some y → alter g i l = <[i := g y]> l.
Proof.
  revert i. induction l as [|a l IH]; intros [|i] Hi; simpl in *; try discriminate.
  - injection Hi as ->. reflexivity.
  - f_equal. apply IH, Hi.
Qed.

Section zmq_series.
Context {rt : PyRuntime}.

(** The sockets after [send_message], exchange failed. *)
Lemma send_message_failure_sockets z method params raise_exceptions net old sock ex :
  _zmq_socket z = Some old → ctx_sockets z !! old = Some sock →
  closed sock = false →
  zmq_connect (_zmq_server_address z) = Ok false →
  exchange_error net = Some ex →
  let z' := snd (send_message method params raise_exceptions net z) in
  ∃ sock1, closed sock1 = false
    ∧ ctx_sockets z' = <[old := close_socket sock1]> (ctx_sockets z) ++ [fresh_socket z]
    ∧ _zmq_socket z' = Some (length (ctx_sockets z)).
Proof.
  intros Hs Hold Hopen Hconn Hex z'. subst z'.
  assert (Hlt : (old < length (ctx_sockets z))%nat)
    by (eapply lookup_lt_Some; eassumption).
  unfold exchange_error in Hex.
  unfold_zmq. unfold_monad. simpl. rewrite Hs, Hold. simpl. rewrite Hopen.
  destruct (send_json_raises net) as [e|] eqn:Hsend; simpl.
  - repeat (rewrite ?Hs, ?Hold, ?Hopen, ?Hconn, ?list_lookup_alter_eq; simpl).
    exists sock. split; [assumption |].
    destruct (_raise_timeout_exceptions z); simpl.
    all: rewrite alter_last, length_alter; simpl.
    all: rewrite (alter_as_insert _ _ _ _ Hold).
    all: split; reflexivity.
  - repeat (rewrite ?Hs, ?Hold, ?Hopen, ?Hconn, ?list_lookup_alter_eq; simpl).
    destruct (recv_json_gives net) as [v|e]; [discriminate |]. simpl.
    repeat (rewrite ?Hs, ?Hold, ?Hopen, ?Hconn, ?list_lookup_alter_eq; simpl).
    eexists (record_sent _ sock). split; [exact Hopen |].
    destruct (_raise_timeout_exceptions z); simpl.
    all: rewrite alter_last, !length_alter; simpl.
    all: rewrite (alter_as_insert _ _ _ _ Hold).
    all: erewrite alter_as_insert
           by (apply list_lookup_insert_eq; eapply lookup_lt_Some; eassumption).
    all: rewrite list_insert_insert_eq.
    all: split; reflexivity.
Qed.

(** The sockets after [send_message], exchange done. *)
Lemma send_message_success_sockets z method params raise_exceptions net old sock v :
  _zmq_socket z = Some old → ctx_sockets z !! old = Some sock →
  closed sock = false →
  send_json_raises net = None → recv_json_gives net = Ok v →
  send_message method params raise_exceptions net z
  = (Ok v,
     {| _timeout_receive := _timeout_receive z; _timeout_send := _timeout_send z;
        _raise_timeout_exceptions := _raise_timeout_exceptions z;
        _zmq_socket := Some old;
        _zmq_server_address := _zmq_server_address z;
        _lock_zmq := false;
        ctx_sockets :=
          <[old := record_sent
                     (_create_msg method
                        (if py_truthy params then params else PDict ∅)) sock]>
            (ctx_sockets z) |}).
Proof.
  intros Hs Hold Hopen Hsend Hrecv.
  unfold_zmq. unfold_monad. simpl.
  repeat (rewrite ?Hs, ?Hold, ?Hopen, ?Hsend, ?Hrecv, ?list_lookup_alter_eq; simpl).
  rewrite (alter_as_insert _ _ _ _ Hold). reflexivity.
Qed.

Lemma sole_open_after_failure z old sock1 :
  sole_open z → _zmq_socket z = Some old → (old < length (ctx_sockets z))%nat →
  ∀ z', ctx_sockets z'
        = <[old := close_socket sock1]> (ctx_sockets z) ++ [fresh_socket z] →
        _zmq_socket z' = Some (length (ctx_sockets z)) →
        sole_open z'.
Proof.
  intros (r & Hr & Hsole) Hs Hlt z' Hctx Hs'.
  assert (r = old) as -> by congruence.
  exists (length (ctx_sockets z)). split; [exact Hs' |].
  intros i sock Hi. rewrite Hctx in Hi.
  destruct (decide (i = length (ctx_sockets z))) as [-> | Hne].
  - rewrite lookup_app_r in Hi by (rewrite length_insert; lia).
    rewrite length_insert, Nat.sub_diag in Hi. injection Hi as <-.
    split; reflexivity || auto.
  - assert (Hlti : (i < length (ctx_sockets z))%nat).
    { apply lookup_lt_Some in Hi. rewrite length_app, length_insert in Hi.
      simpl in Hi. lia. }
    rewrite lookup_app_l in Hi by (rewrite length_insert; lia).
    destruct (decide (i = old)) as [-> | Hne'].
    + rewrite list_lookup_insert_eq in Hi by assumption. injection Hi as <-.
      simpl. split; [discriminate | intros; lia].
    + rewrite list_lookup_insert_ne in Hi by congruence.
      destruct (Hsole i sock Hi) as [H1 H2]. split; [| contradiction].
      intros Hc. apply H1 in Hc. contradiction.
Qed.

Lemma sole_open_after_success z old sock msg :
  sole_open z → _zmq_socket z = Some old → ctx_sockets z !! old = Some sock →
  ∀ z', ctx_sockets z' = <[old := record_sent msg sock]> (ctx_sockets z) →
        _zmq_socket z' = Some old →
        sole_open z'.
Proof.
  intros (r & Hr & Hsole) Hs Hold z' Hctx Hs'.
  assert (r = old) as -> by congruence.
  exists old. split; [exact Hs' |].
  intros i sock' Hi. rewrite Hctx in Hi.
  destruct (decide (i = old)) as [-> | Hne].
  - rewrite list_lookup_insert_eq in Hi by (eapply lookup_lt_Some; eassumption).
    injection Hi as <-. simpl. apply (Hsole old sock Hold).
  - rewrite list_lookup_insert_ne in Hi by congruence. apply Hsole, Hi.
Qed.

Lemma sockets_invariant_send_message z c :
  sockets_invariant z →
  let z' := snd (send_message (zmq_method c) (zmq_params c)
                   (zmq_raise_exceptions c) (zmq_exchange c) z) in
  sockets_invariant z'
  ∧ length (ctx_sockets z')
    = (length (ctx_sockets z) + (if exchange_failed c then 1 else 0))%nat.
Proof.
  intros [Hready Hsole] z'. subst z'.
  split; [split; [apply send_message_ready, Hready |] |].
  - destruct Hready as (Hconn & Hl & old & sock & Hs & Hold & Hopen).
    destruct (exchange_error (zmq_exchange c)) as [ex|] eqn:Hex.
    + destruct (send_message_failure_sockets z (zmq_method c) (zmq_params c)
                  (zmq_raise_exceptions c) (zmq_exchange c) old sock ex
                  Hs Hold Hopen Hconn Hex) as (sock1 & _ & Hctx & Hs').
      eapply sole_open_after_failure; try eassumption.
      eapply lookup_lt_Some; eassumption.
    + unfold exchange_error in Hex.
      destruct (send_json_raises (zmq_exchange c)) eqn:Hsend; [discriminate |].
      destruct (recv_json_gives (zmq_exchange c)) as [v|] eqn:Hrecv; [| discriminate].
      rewrite (send_message_success_sockets z _ _ _ _ old sock v
                 Hs Hold Hopen Hsend Hrecv).
      eapply sole_open_after_success; try eassumption; reflexivity.
  - destruct Hready as (Hconn & Hl & old & sock & Hs & Hold & Hopen).
    unfold exchange_failed.
    destruct (exchange_error (zmq_exchange c)) as [ex|] eqn:Hex.
    + destruct (send_message_failure_sockets z (zmq_method c) (zmq_params c)
                  (zmq_raise_exceptions c) (zmq_exchange c) old sock ex
                  Hs Hold Hopen Hconn Hex) as (sock1 & _ & -> & _).
      rewrite length_app, length_insert. reflexivity.
    + unfold exchange_error in Hex.
      destruct (send_json_raises (zmq_exchange c)) eqn:Hsend; [discriminate |].
      destruct (recv_json_gives (zmq_exchange c)) as [v|] eqn:Hrecv; [| discriminate].
      rewrite (send_message_success_sockets z _ _ _ _ old sock v
                 Hs Hold Hopen Hsend Hrecv). simpl.
      rewrite length_insert. lia.
Qed.

Lemma sockets_invariant_init address timeout_recv timeout_send flag z :
  ZMQCommSendAsync_init address timeout_recv timeout_send flag = (Ok tt, z) →
  sockets_invariant z ∧ length (ctx_sockets z) = 1%nat.
Proof.
  intros Hinit. split; [split |].
  - eapply ZMQCommSendAsync_init_ready, Hinit.
  - destruct (ZMQCommSendAsync_init_ok _ _ _ _ _ Hinit) as (_ & _ & Hs & Hctx & _).
    exists 0%nat. split; [exact Hs |]. intros i sock Hi. rewrite Hctx in Hi.
    destruct i as [|i]; simpl in Hi.
    + injection Hi as <-. split; reflexivity || auto.
    + rewrite lookup_nil in Hi. discriminate.
  - destruct (ZMQCommSendAsync_init_ok _ _ _ _ _ Hinit) as (_ & _ & _ & -> & _).
    reflexivity.
Qed.

Lemma send_messages_invariant calls : ∀ z,
  sockets_invariant z →
  sockets_invariant (send_messages calls z)
  ∧ length (ctx_sockets (send_messages calls z))
    = (length (ctx_sockets z)
       + length (filter (fun c => exchange_failed c = true) calls))%nat.
Proof.
  induction calls as [|c calls IH]; intros z Hinv; simpl.
  - split; [assumption | lia].
  - destruct (sockets_invariant_send_message z c Hinv) as [Hinv' Hlen].
    destruct (IH _ Hinv') as [Hinv'' Hlen'].
    split; [exact Hinv'' |]. unfold send_messages in *. rewrite Hlen', Hlen.
    rewrite filter_cons. destruct (exchange_failed c); case_decide;
      try congruence; simpl; lia.
Qed.

(** X15.  [send_message] on an instance between two calls, when the
    exchange succeeds: the call returns what [recv_json] gives, after
    sending [{'method': method, 'params': params or {}}] on the socket
    of the instance, which stays open and in place; no socket is
    created and the lock is released. *)
Theorem send_message_returns_reply (z : ZMQCommSendAsync) (method : string)
    (params : pyval) (raise_exceptions : bool) (net : exchange)
    (old : nat) (sock : zmq_socket) (v : pyval) :
  zmq_ready z → _zmq_socket z = Some old → ctx_sockets z !! old = Some sock →
  send_json_raises net = None → recv_json_gives net = Ok v →
  let z' := snd (send_message method params raise_exceptions net z) in
  fst (send_message method params raise_exceptions net z) = Ok v
  ∧ _zmq_socket z' = Some old
  ∧ length (ctx_sockets z') = length (ctx_sockets z)
  ∧ (∃ sock', ctx_sockets z' !! old = Some sock'
              ∧ closed sock' = false
              ∧ connected_to sock' = connected_to sock
              ∧ sent sock'
                = sent sock ++
                  [PDict (<["params" := if py_truthy params then params else PDict ∅]>
                            (<["method" := PStr method]> ∅))])
  ∧ _lock_zmq z' = false.
Proof.
  intros (Hconn & Hl & old' & sock0 & Hs & Hold & Hopen) Hs' Hold' Hsend Hrecv z'.
  assert (old' = old) as -> by congruence.
  assert (sock0 = sock) as -> by congruence.
  subst z'.
  rewrite (send_message_success_sockets z method params raise_exceptions net old sock v
             Hs Hold Hopen Hsend Hrecv). simpl.
  rewrite length_insert.
  split; [reflexivity |]. split; [reflexivity |]. split; [reflexivity |].
  split; [| reflexivity].
  eexists. rewrite list_lookup_insert_eq by (eapply lookup_lt_Some; eassumption).
  split; [reflexivity |]. simpl. auto.
Qed.

(** X16.  After [__init__] and any series of [send_message] calls, the
    socket in [_zmq_socket] is the only open socket of the context; the
    context has created one socket plus one for each failed exchange;
    and the lock is free. *)
Theorem one_open_socket (address : option string) (timeout_recv timeout_send : Z)
    (flag : bool) (z0 : ZMQCommSendAsync) (calls : list zmq_call) :
  ZMQCommSendAsync_init address timeout_recv timeout_send flag = (Ok tt, z0) →
  let z := send_messages calls z0 in
  sole_open z
  ∧ length (ctx_sockets z)
    = (1 + length (filter (fun c => exchange_failed c = true) calls))%nat
  ∧ _lock_zmq z = false.
Proof.
  intros Hinit z. subst z.
  destruct (sockets_invariant_init _ _ _ _ _ Hinit) as [Hinv Hlen].
  destruct (send_messages_invariant calls z0 Hinv) as [[Hready Hsole] Hlen'].
  split; [exact Hsole |]. split; [rewrite Hlen', Hlen; reflexivity |].
  apply Hready.
Qed.

(** X17.  After any series of calls on an instance, failed or not, an
    exchange that succeeds returns the reply of the peer. *)
Theorem reply_after_any_history (address : option string)
    (timeout_recv timeout_send : Z) (flag : bool) (z0 : ZMQCommSendAsync)
    (calls : list zmq_call) (method : string) (params : pyval)
    (raise_exceptions : bool) (net : exchange) (v : pyval) :
  ZMQCommSendAsync_init address timeout_recv timeout_send flag = (Ok tt, z0) →
  send_json_raises net = None → recv_json_gives net = Ok v →
  fst (send_message method params raise_exceptions net (send_messages calls z0))
  = Ok v.
Proof.
  intros Hinit Hsend Hrecv.
  destruct (sockets_invariant_init _ _ _ _ _ Hinit) as [Hinv _].
  destruct (send_messages_invariant calls z0 Hinv)
    as [[(Hconn & Hl & old & sock & Hs & Hold & Hopen) _] _].
  rewrite (send_message_success_sockets _ method params raise_exceptions net old sock v
             Hs Hold Hopen Hsend Hrecv). reflexivity.
Qed.

(** The three ways [__init__] ends, by what [connect] does with the
    address. *)
Lemma ZMQCommSendAsync_init_cases (address : option string)
    (timeout_recv timeout_send : Z) (flag : bool) :
  let a := address_or_default address in
  (∀ e, zmq_connect a = Raise e →
        fst (ZMQCommSendAsync_init address timeout_recv timeout_send flag)
        = Raise e)
  ∧ (zmq_connect a = Ok true →
     fst (ZMQCommSendAsync_init address timeout_recv timeout_send flag)
     = Raise (RuntimeError ("Failed to connect to the server '" ++ a ++ "'")%string))
  ∧ (zmq_connect a = Ok false →
     ZMQCommSendAsync_init address timeout_recv timeout_send flag
     = (Ok tt,
        {| _timeout_receive := timeout_recv; _timeout_send := timeout_send;
           _raise_timeout_exceptions := flag; _zmq_socket := Some 0%nat;
           _zmq_server_address := a; _lock_zmq := false;
           ctx_sockets := [{| connected_to := Some a; RCVTIMEO := timeout_recv;
                              SNDTIMEO := timeout_send; LINGER := Some 100%Z;
                              closed := false; sent := [] |}] |})).
Proof.
  intros a. subst a. unfold ZMQCommSendAsync_init, address_or_default.
  unfold_zmq. unfold_monad. simpl.
  split; [| split]; [intros e Hconn | intros Hconn | intros Hconn];
    rewrite Hconn; reflexivity.
Qed.

(** X18.  [__init__] takes [tcp://localhost:5555] when the address is
    [None] or empty.  When [connect] raises, [__init__] raises the same
    exception; when [connect] returns a true value, [__init__] raises
    [RuntimeError] with the address in the text; when [connect] returns
    a false value, the instance has one open socket, connected to the
    address, with the given timeouts and [LINGER] 100, and a free
    lock. *)
Theorem ZMQCommSendAsync_init_outcome (address : option string)
    (timeout_recv timeout_send : Z) (flag : bool) :
  let a := address_or_default address in
  (∀ e, zmq_connect a = Raise e →
        fst (ZMQCommSendAsync_init address timeout_recv timeout_send flag)
        = Raise e)
  ∧ (zmq_connect a = Ok true →
     fst (ZMQCommSendAsync_init address timeout_recv timeout_send flag)
     = Raise (RuntimeError ("Failed to connect to the server '" ++ a ++ "'")%string))
  ∧ (zmq_connect a = Ok false →
     ZMQCommSendAsync_init address timeout_recv timeout_send flag
     = (Ok tt,
        {| _timeout_receive := timeout_recv; _timeout_send := timeout_send;
           _raise_timeout_exceptions := flag; _zmq_socket := Some 0%nat;
           _zmq_server_address := a; _lock_zmq := false;
           ctx_sockets := [{| connected_to := Some a; RCVTIMEO := timeout_recv;
                              SNDTIMEO := timeout_send; LINGER := Some 100%Z;
                              closed := false; sent := [] |}] |})).
Proof.
  exact (ZMQCommSendAsync_init_cases address timeout_recv timeout_send flag).
Qed.

(** What [send_request] returns when [connect] returns a false value. *)
Lemma send_request_returns method params address net :
  zmq_connect (address_or_default address) = Ok false →
  ∃ v z', send_request method params address net = (Ok v, z')
          ∧ (∀ sock, sock ∈ ctx_sockets z' → closed sock = true).
Proof.
  intros Hconn.
  destruct (ZMQCommSendAsync_init_cases address 2000 500 false) as (_ & _ & Hinit).
  specialize (Hinit Hconn).
  destruct (sockets_invariant_init _ _ _ _ _ Hinit) as [Hinv _].
  pose (c := {| zmq_method := method; zmq_params := params;
                zmq_raise_exceptions := false; zmq_exchange := net |}).
  destruct (sockets_invariant_send_message _ c Hinv) as [[Hready Hsole] _].
  simpl in Hready, Hsole.
  unfold send_request. rewrite Hinit.
  assert (Hok : ∃ v z1, send_message method params false net
                          (snd (ZMQCommSendAsync_init address 2000 500 false))
                        = (Ok v, z1)).
  { rewrite Hinit. simpl.
    destruct (exchange_error net) as [ex|] eqn:Hex.
    - destruct Hinv as [(Hc & _ & old & sock & Hs & Hold & Hopen) _].
      destruct (send_message_failure _ method params false net old sock ex
                  Hs Hold Hopen Hc Hex) as (z2 & sock2 & -> & _). simpl. eauto.
    - destruct Hinv as [(Hc & _ & old & sock & Hs & Hold & Hopen) _].
      destruct (send_message_success _ method params false net old sock
                  Hs Hold Hopen Hex) as (z2 & sock2 & v & _ & -> & _). eauto. }
  rewrite Hinit in Hok. simpl in Hok. destruct Hok as (v & z1 & Hsend).
  rewrite Hsend in Hready, Hsole. simpl in Hready, Hsole.
  unfold_monad. rewrite Hsend.
  destruct Hsole as (r & Hr & Hsole).
  destruct Hready as (_ & _ & r' & sock & Hr' & Hsock & _).
  assert (r' = r) as -> by congruence.
  unfold_zmq. unfold_monad. rewrite Hr, Hsock. simpl.
  eexists _, _. split; [reflexivity |]. simpl.
  intros sock' Hin. apply list_elem_of_lookup in Hin as [i Hi].
  destruct (decide (i = r)) as [-> | Hne].
  - rewrite list_lookup_alter_eq, Hsock in Hi. injection Hi as <-. reflexivity.
  - rewrite list_lookup_alter_ne in Hi by congruence.
    destruct (Hsole i sock' Hi) as [H1 _].
    destruct (closed sock'); [reflexivity |]. exfalso. apply Hne. auto.
Qed.

(** X19.  When the coroutine [send_request] of [zmq_single_request]
    returns a value, every socket that the transient client created is
    closed. *)
Theorem single_request_closes_sockets (method : string) (params : pyval)
    (address : option string) (net : exchange) (v : pyval) :
  fst (send_request method params address net) = Ok v →
  ∀ sock, sock ∈ ctx_sockets (snd (send_request method params address net)) →
          closed sock = true.
Proof.
  intros Hok.
  destruct (ZMQCommSendAsync_init_cases address 2000 500 false)
    as (Hraise & Hfail & _).
  destruct (zmq_connect (address_or_default address)) as [[|]|e] eqn:Hconn.
  - exfalso. unfold send_request in Hok. specialize (Hfail eq_refl).
    destruct (ZMQCommSendAsync_init address 2000 500 false) as [[[]|e] z];
      simpl in *; discriminate.
  - destruct (send_request_returns method params address net Hconn)
      as (v' & z' & -> & Hclosed). exact Hclosed.
  - exfalso. unfold send_request in Hok. specialize (Hraise e eq_refl).
    destruct (ZMQCommSendAsync_init address 2000 500 false) as [[[]|e'] z];
      simpl in *; discriminate.
Qed.

(** X20.  [zmq_single_request] returns a pair in every case.  When
    [connect] raises, the pair is [None] and the text of that
    exception; when [connect] returns a true value, it is [None] and
    the text ['Failed to connect to the server ...']; when [connect]
    returns a false value, the error text is empty and the message is
    the reply of the peer, or the value
    [{'success': False, 'msg': ...}] when the exchange fails. *)
Theorem single_request_error_text (method : string) (params : pyval)
    (address : option string) (net : exchange) :
  let a := address_or_default address in
  (∀ e, zmq_connect a = Raise e →
        zmq_single_request method params address net = Ok (PNone, exn_str e))
  ∧ (zmq_connect a = Ok true →
     zmq_single_request method params address net
     = Ok (PNone, ("Failed to connect to the server '" ++ a ++ "'")%string))
  ∧ (zmq_connect a = Ok false →
     ∃ v, zmq_single_request method params address net = Ok (v, ""%string)
          ∧ v = match exchange_error net with
                | Some ex =>
                    PDict (<["msg" := PStr ("ZMQ communication error: "
                                            ++ exn_str ex)%string]>
                             (<["success" := PBool false]> ∅))
                | None =>
                    match recv_json_gives net with Ok v => v | Raise _ => PNone end
                end).
Proof.
  intros a. subst a.
  destruct (ZMQCommSendAsync_init_cases address 2000 500 false)
    as (Hraise & Hfail & Hinit).
  split; [| split].
  - intros e Hconn. unfold zmq_single_request, send_request.
    specialize (Hraise e Hconn).
    destruct (ZMQCommSendAsync_init address 2000 500 false) as [[[]|e'] z];
      simpl in *; [discriminate |]. injection Hraise as ->. reflexivity.
  - intros Hconn. unfold zmq_single_request, send_request.
    specialize (Hfail Hconn).
    destruct (ZMQCommSendAsync_init address 2000 500 false) as [[[]|e] z];
      simpl in *; [discriminate |]. injection Hfail as ->. reflexivity.
  - intros Hconn.
    destruct (send_request_returns method params address net Hconn)
      as (v & z' & Hreq & _).
    exists v. unfold zmq_single_request. rewrite Hreq. simpl.
    split; [reflexivity |].
    specialize (Hinit Hconn).
    destruct (sockets_invariant_init _ _ _ _ _ Hinit)
      as [[(Hc & _ & old & sock & Hs & Hold & Hopen) _] _].
    unfold send_request in Hreq. rewrite Hinit in Hreq. unfold_monad.
    unfold mbind in Hreq.
    destruct (exchange_error net) as [ex|] eqn:Hex.
    + destruct (send_message_failure _ method params false net old sock ex
                  Hs Hold Hopen Hc Hex) as (z2 & sock2 & Heq & _).
      simpl in Heq. rewrite Heq in Hreq. unfold failure_value in Hreq.
      destruct (socket_close z2) as [[[]|e] z3]; simpl in Hreq;
        unfold mret in Hreq; congruence.
    + destruct (send_message_success _ method params false net old sock
                  Hs Hold Hopen Hex) as (z2 & sock2 & v2 & Hv & Heq & _).
      rewrite Heq in Hreq. rewrite Hv.
      destruct (socket_close z2) as [[[]|e] z3]; simpl in Hreq;
        unfold mret in Hreq; congruence.
Qed.
End zmq_series.

(** * The further properties on concrete inputs *)

Lemma send_msg_ignores_other_ids_witness :
  fst <$> send_msg "echo" PNone false None "u1" None
            [demo_stray; demo_no_id] [demo_stray; demo_result] [demo_error_plain]
            demo_idle
  = fst <$> send_msg "echo" PNone false None "u1" None
              (filter (fun r => answers "u1" r = true) [demo_stray; demo_no_id])
              (filter (fun r => answers "u1" r = true) [demo_stray; demo_result])
              [] demo_idle.
Proof.
  apply (send_msg_ignores_other_ids (rt := demo_runtime) "echo" PNone None "u1"
           [demo_stray; demo_no_id] [demo_stray; demo_result] [demo_error_plain]
           demo_idle "<json>");
    reflexivity.
Defined.

Lemma send_msg_outcome_forgets_history_witness :
  _lock_comm demo_used = false
  ∧ trace demo_used ≠ trace demo_idle
  ∧ fst <$> send_msg "echo" PNone false None "u1" None
              [demo_result] [] [] demo_idle
    = fst <$> send_msg "echo" PNone false None "u1" None
                [demo_result] [] [] demo_used.
Proof.
  split; [reflexivity |]. split; [discriminate |].
  apply (send_msg_outcome_forgets_history (rt := demo_runtime)); reflexivity.
Defined.

Lemma send_msg_write_failure_witness :
  ∃ s', send_msg "echo" PNone false None "u1"
          (Some (LibError "BrokenPipeError" "Broken pipe")) [demo_result] [] []
          demo_idle
        = Some (Raise (LibError "BrokenPipeError" "Broken pipe"), s')
        ∧ loop_futures s' = [].
Proof.
  destruct (send_msg_write_failure (rt := demo_runtime) "echo" PNone false None "u1"
              (Some (LibError "BrokenPipeError" "Broken pipe")) [demo_result] [] []
              demo_idle (LibError "BrokenPipeError" "Broken pipe") eq_refl
              (or_intror (conj eq_refl eq_refl)))
    as (s' & Hs & _ & Hf & _).
  exists s'. split; [exact Hs | exact Hf].
Defined.

Lemma response_received_after_completion_witness :
  _response_received demo_result (cancel_and_wait 0 demo_waiting)
  = (Raise InvalidStateError, cancel_and_wait 0 demo_waiting)
  ∧ deliver demo_result (deliver demo_result demo_waiting)
    = deliver demo_result demo_waiting.
Proof.
  split.
  - destruct (response_received_after_completion
                (cancel_and_wait 0 demo_waiting) demo_result "u1" 0) as [H _];
      [reflexivity | reflexivity | reflexivity | discriminate | exact H].
  - destruct (response_received_after_completion
                (deliver demo_result demo_waiting) demo_result "u1" 0) as [_ H];
      [reflexivity | reflexivity | reflexivity | discriminate | exact H].
Defined.

Lemma send_msg_request_suspends_witness :
  ∃ msg f s',
    send_msg_begin "echo" PNone false (Some (3 # 1)) "u1" None demo_idle
    = (Awaiting msg f, s')
    ∧ _expected_msg_id s' = Some "u1"%string
    ∧ trace s' = [EvLockAcquire; EvConnSend "<json>"; EvSetExpectedMsgId (Some "u1"%string);
                  EvCreateFuture f; EvSetFutComm (Some f); EvWaitFor f (3 # 1)].
Proof.
  destruct (send_msg_request_suspends (rt := demo_runtime) "echo" PNone
              (Some (3 # 1)) "u1" demo_idle "<json>" eq_refl eq_refl)
    as (msg & f & s' & Hb & _ & He & _ & _ & _ & _ & Ht).
  exists msg, f, s'. split; [exact Hb |]. split; [exact He | exact Ht].
Defined.

Lemma send_msg_result_provenance_witness :
  ∃ response, response ∈ [demo_stray] ++ [demo_no_id; demo_result]
              ∧ response !! "id"%string = Some (PStr "u1")
              ∧ response !! "result"%string = Some (PInt 7).
Proof.
  apply (send_msg_result_provenance (rt := demo_runtime) "echo" PNone None "u1"
           [demo_stray] [demo_no_id; demo_result] [demo_error_plain] demo_idle
           (match send_msg "echo" PNone false None "u1" None
                    [demo_stray] [demo_no_id; demo_result] [demo_error_plain]
                    demo_idle with
            | Some (_, s) => s
            | None => demo_idle
            end)
           "<json>" (PInt 7));
    [reflexivity | reflexivity | vm_compute; reflexivity].
Defined.

Lemma send_msg_writes_once_witness :
  ∃ r s', send_msg "echo" PNone false None "u1" None
            [demo_result] [demo_stray] [demo_result] demo_used = Some (r, s')
          ∧ pipe_writes (trace s') = pipe_writes (trace demo_used) ++ ["<json>"%string].
Proof.
  apply (send_msg_writes_once (rt := demo_runtime) "echo" PNone false None "u1" None
           [demo_result] [demo_stray] [demo_result] demo_used).
  reflexivity.
Defined.

Lemma waiting_call_can_finish_witness :
  let sy := run [ACall (demo_call false); ACall (demo_call false);
                 AEnter 0 "u1" None; AEnter 1 "u2" None]
              (initial_system (1 # 2)) in
  let sy' := run [ATimeout 0; AResume 0] sy in
  tasks sy' !! 0%nat
  = Some (TFinished (Raise (CommTimeoutError
            (timeout_text (format_jsonrpc_msg "echo" PNone false "u1")))))
  ∧ _lock_comm (client sy') = false
  ∧ tasks (exec (AEnter 1 "u2" None) sy') !! 1%nat ≠ Some (TCall (demo_call false)).
Proof.
  intros sy sy'.
  destruct (waiting_call_can_finish (rt := demo_runtime) (1 # 2)
              [ACall (demo_call false); ACall (demo_call false);
               AEnter 0 "u1" None; AEnter 1 "u2" None]
              0 (format_jsonrpc_msg "echo" PNone false "u1") 0 eq_refl)
    as (Hfin & Hl & _ & Henter).
  split; [exact Hfin |]. split; [exact Hl |].
  apply (Henter 1%nat (demo_call false) "u2"%string None). reflexivity.
Defined.

Lemma restart_keeps_running_threads_witness :
  live_threads (start receiver_init) = 1%nat
  ∧ live_threads (receiver_run [RCheck 0; RCheck 1; RCheck 0]
                    (start (stop (start receiver_init)))) = 2%nat.
Proof.
  split; [reflexivity |].
  destruct (restart_keeps_running_threads (start receiver_init)
              [RCheck 0; RCheck 1; RCheck 0]) as [_ Hlive].
  - intros a Ha. repeat (apply elem_of_cons in Ha as [-> | Ha]; [reflexivity |]).
    inversion Ha.
  - exact Hlive.
Defined.

Lemma receive_loop_ends_witness :
  _receive_conn_thread demo_handle
    ([demo_pass "a" true; demo_pass "notify" true]
     ++ demo_pass "boom" true :: [demo_pass "c" true]) []
  = (LoopFailed (LibError "ValueError" "boom"), ["re:a"%string])
  ∧ _receive_conn_thread demo_handle
      ([demo_pass "a" true; demo_pass "notify" true]
       ++ demo_pass "b" false :: [demo_pass "c" true]) []
    = (LoopStopped, ["re:a"%string; "re:b"%string]).
Proof.
  assert (Hgood : ∀ q, q ∈ [demo_pass "a" true; demo_pass "notify" true] →
                       pass_continues (pass_fails_receive demo_handle) q).
  { intros q Hq. repeat (apply elem_of_cons in Hq as [-> | Hq]; [split; reflexivity |]).
    inversion Hq. }
  split.
  - apply (receive_loop_ends demo_handle
             [demo_pass "a" true; demo_pass "notify" true] [demo_pass "c" true]
             (demo_pass "boom" true) [] Hgood). reflexivity.
  - apply (receive_loop_ends demo_handle
             [demo_pass "a" true; demo_pass "notify" true] [demo_pass "c" true]
             (demo_pass "b" false) [] Hgood); reflexivity.
Defined.

Lemma pipe_receive_ends_witness :
  _pipe_receive demo_loads
    ([demo_pass "a" true] ++ demo_pass "{" true :: [demo_pass "c" true]) []
  = (LoopFailed (LibError "JSONDecodeError" "Expecting property name"),
     [PDict (<["id" := PStr "a"]> ∅)]).
Proof.
  assert (Hgood : ∀ q, q ∈ [demo_pass "a" true] →
                       pass_continues (pass_fails_decode demo_loads) q).
  { intros q Hq. apply list_elem_of_singleton in Hq. subst q. split; reflexivity. }
  apply (pipe_receive_ends demo_loads [demo_pass "a" true] [demo_pass "c" true]
           (demo_pass "{" true) [] Hgood). reflexivity.
Defined.

Lemma send_message_returns_reply_witness :
  fst (send_message "status" PNone false demo_answered demo_client)
  = Ok (PDict (<["success" := PBool true]> ∅))
  ∧ ∃ sock', ctx_sockets (snd (send_message "status" PNone false demo_answered
                                 demo_client)) !! 0%nat = Some sock'
             ∧ sent sock' = [PDict (<["params" := PDict ∅]>
                                      (<["method" := PStr "status"]> ∅))].
Proof.
  destruct (send_message_returns_reply (rt := demo_runtime) demo_client "status"
              PNone false demo_answered 0 (fresh_socket demo_client)
              (PDict (<["success" := PBool true]> ∅))
              demo_client_ready eq_refl eq_refl eq_refl eq_refl)
    as (Hr & _ & _ & (sock' & Hs & _ & _ & Hsent) & _).
  split; [exact Hr |]. exists sock'. split; [exact Hs | exact Hsent].
Defined.

Lemma one_open_socket_witness :
  let z := send_messages [demo_zmq_call demo_unanswered; demo_zmq_call demo_answered;
                          demo_zmq_call demo_unanswered] demo_client in
  sole_open z ∧ length (ctx_sockets z) = 3%nat.
Proof.
  intros z.
  destruct (one_open_socket (rt := demo_runtime) None 2000 500 false demo_client
              [demo_zmq_call demo_unanswered; demo_zmq_call demo_answered;
               demo_zmq_call demo_unanswered] eq_refl) as (Hsole & Hlen & _).
  split; [exact Hsole | exact Hlen].
Defined.

Lemma reply_after_any_history_witness :
  fst (send_message "status" PNone false demo_answered
         (send_messages [demo_zmq_call demo_unanswered; demo_zmq_call demo_unanswered]
            demo_client))
  = Ok (PDict (<["success" := PBool true]> ∅)).
Proof.
  apply (reply_after_any_history (rt := demo_runtime) None 2000 500 false demo_client);
    reflexivity.
Defined.

Lemma ZMQCommSendAsync_init_outcome_witness :
  fst (ZMQCommSendAsync_init (Some "bad://"%string) 2000 500 false)
  = Raise (LibError "ZMQError" "Protocol not supported")
  ∧ fst (ZMQCommSendAsync_init (rt := demo_runtime_true) None 2000 500 false)
    = Raise (RuntimeError "Failed to connect to the server 'tcp://localhost:5555'")
  ∧ _zmq_server_address (snd (ZMQCommSendAsync_init (Some ""%string) 2000 500 true))
    = "tcp://localhost:5555"%string.
Proof.
  split; [| split].
  - destruct (ZMQCommSendAsync_init_outcome (rt := demo_runtime)
                (Some "bad://"%string) 2000 500 false) as (Hraise & _ & _).
    exact (Hraise (LibError "ZMQError" "Protocol not supported") eq_refl).
  - destruct (ZMQCommSendAsync_init_outcome (rt := demo_runtime_true)
                None 2000 500 false) as (_ & Htrue & _).
    exact (Htrue eq_refl).
  - destruct (ZMQCommSendAsync_init_outcome (rt := demo_runtime)
                (Some ""%string) 2000 500 true) as (_ & _ & Hok).
    rewrite (Hok eq_refl). reflexivity.
Defined.

Lemma single_request_closes_sockets_witness :
  length (ctx_sockets (snd (send_request "status" PNone None demo_unanswered))) = 2%nat
  ∧ ∀ sock, sock ∈ ctx_sockets (snd (send_request "status" PNone None demo_unanswered)) →
            closed sock = true.
Proof.
  split; [reflexivity |].
  apply (single_request_closes_sockets (rt := demo_runtime) "status" PNone None
           demo_unanswered
           (PDict (<["msg" := PStr "ZMQ communication error: Resource temporarily unavailable"]>
                     (<["success" := PBool false]> ∅)))).
  reflexivity.
Defined.

Lemma single_request_error_text_witness :
  zmq_single_request "status" PNone (Some "bad://"%string) demo_answered
  = Ok (PNone, "Protocol not supported"%string)
  ∧ zmq_single_request (rt := demo_runtime_true) "status" PNone None demo_answered
    = Ok (PNone, "Failed to connect to the server 'tcp://localhost:5555'"%string)
  ∧ ∃ v, zmq_single_request "status" PNone None demo_answered = Ok (v, ""%string)
         ∧ v = PDict (<["success" := PBool true]> ∅).
Proof.
  split; [| split].
  - destruct (single_request_error_text (rt := demo_runtime) "status" PNone
                (Some "bad://"%string) demo_answered) as (Hraise & _ & _).
    exact (Hraise (LibError "ZMQError" "Protocol not supported") eq_refl).
  - destruct (single_request_error_text (rt := demo_runtime_true) "status" PNone
                None demo_answered) as (_ & Htrue & _).
    exact (Htrue eq_refl).
  - destruct (single_request_error_text (rt := demo_runtime) "status" PNone None
                demo_answered) as (_ & _ & Hok).
    exact (Hok eq_refl).
Defined.
